(** * SUMO_Analyse: decoding an RC sum (PPM) signal on an Arduino Uno

    Shallow embedding of [SUMO_Analyse.ino]: the interrupt service routine
    [read_ppm], which times the rising edges of the sum signal with timer 1,
    and the main [loop], which prints a finished frame over the serial link.

    The sketch targets the ATmega328 (see the header comment of the source):
    [int] and [unsigned int] are 16 bits wide, [TCNT1] is a 16-bit register. *)

From Stdlib Require Import ZArith List String Ascii Bool Lia.
From stdpp Require Import base list numbers.
Import ListNotations.

Local Open Scope Z_scope.

(** ** Machine integers *)

(** Value of a C [unsigned int] holding the integer [z]. *)
Definition to_uint (z : Z) : Z := z mod 65536.

(** Value of a C [int] holding the integer [z]: two's complement on 16 bits,
    which is what avr-gcc emits for [currentChannel++] (the C++ standard
    leaves the overflowing increment undefined). *)
Definition to_int (z : Z) : Z := (z + 32768) mod 65536 - 32768.

(** ** Program state *)

Record state : Type := mkState {
  channel : list Z;        (* unsigned int channel[9] *)
  readyToShow : bool;      (* boolean readyToShow *)
  currentChannel : Z;      (* int currentChannel *)
  TCNT1 : Z;               (* counter register of timer 1 *)
  pauseDuration : Z        (* static unsigned int pauseDuration of read_ppm *)
}.

(** State right after [setup]: the globals carry their initialisers, the
    array is zero-initialised static storage, the timer starts at zero. *)
Definition initial : state :=
  mkState (repeat 0 9) false (-1) 0 0.

(** ** Observable events

    Every subscript applied to [channel] is recorded with its index, so that
    an access outside the array shows up in the trace; the calls to [Serial]
    and [delay] are recorded in program order. *)
Inductive event : Type :=
  | Fetch (i : Z)               (* channel[i] is read *)
  | Store (i v : Z)            (* channel[i] = v *)
  | Serial_print_int (n : Z)           (* Serial.print(int) *)
  | Serial_print_uint (n : Z)          (* Serial.print(unsigned int) *)
  | Serial_print_str (s : string)      (* Serial.print(const char * ) *)
  | Serial_println_uint (n : Z)        (* Serial.println(unsigned int) *)
  | Delay (ms : Z).            (* delay(ms) *)

(** ** A state-and-trace monad for the sketch's code *)

Definition M (A : Type) : Type := state -> A * state * list event.

Definition ret {A : Type} (a : A) : M A := fun s => (a, s, []).

Definition bind {A B : Type} (m : M A) (k : A -> M B) : M B :=
  fun s =>
    let r1 := m s in
    let r2 := k (fst (fst r1)) (snd (fst r1)) in
    (fst (fst r2), snd (fst r2), snd r1 ++ snd r2).

Declare Scope sketch_scope.
Delimit Scope sketch_scope with sketch.
Notation "x <- m ; k" := (bind m (fun x => k))
  (at level 20, m at level 100, k at level 200, right associativity) : sketch_scope.
Notation "m ;; k" := (bind m (fun _ => k))
  (at level 100, k at level 200, right associativity) : sketch_scope.
Local Open Scope sketch_scope.

Definition gets {A : Type} (f : state -> A) : M A := fun s => (f s, s, []).
Definition modify (f : state -> state) : M unit := fun s => (tt, f s, []).
Definition emit (e : event) : M unit := fun s => (tt, s, [e]).
Definition when (b : bool) (m : M unit) : M unit := if b then m else ret tt.

Definition exec {A : Type} (m : M A) (s : state) : state := snd (fst (m s)).
Definition trace {A : Type} (m : M A) (s : state) : list event := snd (m s).

(** Assignments to the globals and to the timer register. *)
Definition set_readyToShow (b : bool) : M unit :=
  modify (fun s => mkState (channel s) b (currentChannel s) (TCNT1 s) (pauseDuration s)).
Definition set_currentChannel (c : Z) : M unit :=
  modify (fun s => mkState (channel s) (readyToShow s) c (TCNT1 s) (pauseDuration s)).
Definition set_TCNT1 (t : Z) : M unit :=
  modify (fun s => mkState (channel s) (readyToShow s) (currentChannel s) t (pauseDuration s)).
Definition set_pauseDuration (p : Z) : M unit :=
  modify (fun s => mkState (channel s) (readyToShow s) (currentChannel s) (TCNT1 s) p).

(** [channel[i]] as an rvalue.  Inside the array it yields the element; the
    model gives 0 outside, where the program would read foreign memory. *)
Definition in_bounds (i : Z) : bool := (0 <=? i) && (i <? 9).

Definition subscript (ch : list Z) (i : Z) : Z :=
  if in_bounds i then default 0 (ch !! Z.to_nat i) else 0.

Definition load (i : Z) : M Z :=
  fun s => (subscript (channel s) i, s, [Fetch i]).

(** [channel[i] = v].  Inside the array the element is replaced; a store
    outside the array lands in memory this model does not track, so the
    array is left as it is and only the trace keeps the offending index. *)
Definition assign (ch : list Z) (i v : Z) : list Z :=
  if in_bounds i then <[Z.to_nat i := v]> ch else ch.

Definition store (i v : Z) : M unit :=
  fun s => (tt,
            mkState (assign (channel s) i v) (readyToShow s) (currentChannel s)
                    (TCNT1 s) (pauseDuration s),
            [Store i v]).

(** ** The interrupt service routine *)

(** Body of [if (pauseDuration > 2500)]: a pause of more than 2.5 ms starts
    a new cycle. *)
Definition sync_gap_branch : M unit :=
  c <- gets currentChannel ;
  when (negb (c =? -1)) (
    pd <- gets pauseDuration ;
    store 8 pd ;;
    set_readyToShow true) ;;
  set_currentChannel 0.

(** Body of the matching [else]: the interval is a channel value. *)
Definition channel_pulse_branch : M unit :=
  c <- gets currentChannel ;
  when (negb (c =? -1)) (
    c <- gets currentChannel ;
    when (c <? 8) (
      c <- gets currentChannel ;
      pd <- gets pauseDuration ;
      store c pd) ;;
    c <- gets currentChannel ;
    set_currentChannel (to_int (c + 1))).

Definition read_ppm : M unit :=
  t <- gets TCNT1 ;
  set_pauseDuration (to_uint t) ;;
  set_TCNT1 0 ;;
  pd <- gets pauseDuration ;
  set_pauseDuration (Z.shiftr pd 1) ;;
  ready <- gets readyToShow ;
  when (negb ready) (
    pd <- gets pauseDuration ;
    if 2500 <? pd then sync_gap_branch else channel_pulse_branch).

(** ** The main loop *)

(** [for (int i = 0; i < 8; i++)] with the local it updates threaded through. *)
Fixpoint for_each {A : Type} (idx : list Z) (body : Z -> A -> M A) (a : A) : M A :=
  match idx with
  | [] => ret a
  | i :: rest => a' <- body i a ; for_each rest body a'
  end.

(** Body of the [for] statement of [loop]; yields the updated [total]. *)
Definition print_channel (i total : Z) : M Z :=
  emit (Serial_print_int (to_int (i + 1))) ;;
  emit (Serial_print_str ": ") ;;
  v <- load i ;
  emit (Serial_print_uint v) ;;
  emit (Serial_print_str "; ") ;;
  v <- load i ;
  ret (to_uint (total + v)).

Definition loop : M unit :=
  total <- load 8 ;
  ready <- gets readyToShow ;
  when ready (
    total <- for_each (seqZ 0 8) print_channel total ;
    emit (Serial_print_str "Pause: ") ;;
    v <- load 8 ;
    emit (Serial_print_uint v) ;;
    emit (Serial_print_str "; Total = ") ;;
    emit (Serial_println_uint total) ;;
    set_readyToShow false ;;
    set_currentChannel (-1) ;;
    emit (Delay 2000)).

(** ** The serial line

    [Serial.print] is the Arduino core's [Print] class, not code of the
    sketch; numbers go out in decimal through [Print::printNumber], which
    peels off the digits from the least significant one (an [unsigned long]
    has at most ten of them), and [println] appends CR LF. *)
Fixpoint printNumber_loop (fuel : nat) (n : Z) (acc : string) : string :=
  match fuel with
  | O => acc
  | S fuel' =>
      let acc' := String (ascii_of_nat (Z.to_nat (48 + n mod 10))) acc in
      if n / 10 =? 0 then acc' else printNumber_loop fuel' (n / 10) acc'
  end.

Definition printNumber (n : Z) : string := printNumber_loop 10 n EmptyString.

Definition crlf : string := String "013" (String "010" EmptyString).

Definition text_of (e : event) : string :=
  match e with
  | Serial_print_int n =>
      if n <? 0 then String "-" (printNumber (- n)) else printNumber n
  | Serial_print_uint n => printNumber n
  | Serial_print_str s => s
  | Serial_println_uint n => String.append (printNumber n) crlf
  | Fetch _ | Store _ _ | Delay _ => EmptyString
  end.

(** The characters a trace puts on the serial line. *)
Definition serial_text (t : list event) : string :=
  fold_right (fun e acc => String.append (text_of e) acc) EmptyString t.

(** The calls to [Serial] in a trace, and the subscripts applied to [channel]. *)
Definition is_serial (e : event) : bool :=
  match e with
  | Serial_print_int _ | Serial_print_uint _ | Serial_print_str _
  | Serial_println_uint _ => true
  | _ => false
  end.

Definition serial_calls (t : list event) : list event := List.filter is_serial t.

Definition accessed (e : event) : option Z :=
  match e with
  | Fetch i => Some i
  | Store i _ => Some i
  | _ => None
  end.

Definition accesses (t : list event) : list Z := omap accessed t.

Definition stores (t : list event) : list Z :=
  omap (fun e => match e with Store i _ => Some i | _ => None end) t.

(** ** The sketch as a reactive system

    The inputs are the rising edges of the pin, each of which runs [read_ppm]
    with whatever timer 1 has counted up to ([tcnt] half-microsecond ticks,
    kept in a 16-bit register), and the passes of [loop].  [Pass] is a pass
    during which no interrupt fires; what an interrupt between two statements
    of [loop] does is the subject of the statement-level machine further
    down ([advance], [schedule]). *)
Inductive input : Type :=
  | Edge (tcnt : Z)     (* rising edge: the interrupt fires *)
  | Pass.               (* one pass of loop() *)

Definition step (i : input) : M unit :=
  match i with
  | Edge tcnt => set_TCNT1 (to_uint tcnt) ;; read_ppm
  | Pass => loop
  end.

Fixpoint run (ins : list input) : M unit :=
  match ins with
  | [] => ret tt
  | i :: rest => step i ;; run rest
  end.

(** Microseconds [read_ppm] computes for an edge arriving at counter value [tcnt]. *)
Definition elapsed_us (tcnt : Z) : Z := Z.shiftr (to_uint tcnt) 1.

(** Value of [readyToShow] after each input, in order. *)
Fixpoint ready_history (ins : list input) (s : state) : list bool :=
  match ins with
  | [] => []
  | i :: rest => let s' := exec (step i) s in readyToShow s' :: ready_history rest s'
  end.

(** Number of times the flag goes from clear to set along a history. *)
Fixpoint rising (prev : bool) (h : list bool) : nat :=
  match h with
  | [] => O
  | b :: rest => ((if negb prev && b then 1 else 0) + rising b rest)%nat
  end.

Definition assertions (ins : list input) (s : state) : nat :=
  rising (readyToShow s) (ready_history ins s).

(** The array really has its nine elements. *)
Definition well_formed (s : state) : Prop := length (channel s) = 9%nat.

Definition sum_list (l : list Z) : Z := fold_right Z.add 0 l.

(** ** Vocabulary of the statements *)

(** What one iteration of the [for] statement prints and reads. *)
Definition iteration_trace (ch : list Z) (i : Z) : list event :=
  [Serial_print_int (to_int (i + 1)); Serial_print_str ": "; Fetch i;
   Serial_print_uint (subscript ch i); Serial_print_str "; "; Fetch i].

(** The running total after the iterations for the indices [idx]. *)
Definition accumulate (ch : list Z) (idx : list Z) (total : Z) : Z :=
  fold_left (fun t i => to_uint (t + subscript ch i)) idx total.

(** State in which the branches of [read_ppm] run: the counter has been
    read into [pauseDuration], halved, and reset. *)
Definition latched (s : state) (tcnt : Z) : state :=
  mkState (channel s) (readyToShow s) (currentChannel s) 0 (elapsed_us tcnt).

(** The intervals of the end-to-end scenario, in microseconds. *)
Definition scenario : list Z :=
  [3000; 1500; 1500; 1500; 1500; 1500; 1500; 1500; 1500; 3000].

(** A long pause followed by [n] short intervals and no further pause. *)
Definition runaway (n : Z) : list input :=
  Edge 6000 :: repeat (Edge 3000) (Z.to_nat n).

(** The ends of line a trace puts on the serial link: one per report. *)
Definition is_println (e : event) : bool :=
  match e with
  | Serial_println_uint _ => true
  | _ => false
  end.

Definition lines (t : list event) : nat := length (List.filter is_println t).

(** Values the decoder can have left in the array: a channel slot only ever
    receives an interval of at most 2500 microseconds, the pause slot a
    halved 16-bit count. *)
Definition plausible (s : state) : Prop :=
  length (channel s) = 9%nat
  /\ Forall (fun v => 0 <= v <= 2500) (take 8 (channel s))
  /\ Forall (fun v => 0 <= v < 32768) (drop 8 (channel s)).

(** ** Start-up

    [setup] and [setupPPM] only talk to the hardware: they configure the pin,
    attach [read_ppm] to the external interrupt and program timer 1.  The
    control registers of timer 1 are 8 bits wide.  [INPUT], [RISING] and the
    bit number [CS11] come from the Arduino and AVR headers, not from the
    sketch: the two modes are kept as names, [CS11] is a parameter. *)
Definition PPM_SIGNAL : Z := 2.

Inductive pin_mode : Type := INPUT | OUTPUT | INPUT_PULLUP.

Inductive trigger : Type := LOW | CHANGE | RISING | FALLING.

Record timer1 : Type := mkTimer1 {
  TCCR1A : Z;
  TCCR1B : Z
}.

Inductive setup_call : Type :=
  | Call_pinMode (pin : Z) (mode : pin_mode)
  | Call_attachInterrupt (num : Z) (isr : M unit) (mode : trigger)
  | Call_Serial_begin (baud : Z).

Definition to_uint8 (z : Z) : Z := z mod 256.

Definition setupPPM (CS11 : Z) (t : timer1) : timer1 * list setup_call :=
  let calls :=
    [Call_pinMode PPM_SIGNAL INPUT;
     Call_attachInterrupt (to_int (PPM_SIGNAL - 2)) read_ppm RISING] in
  let t1 := mkTimer1 0 (TCCR1B t) in
  let t2 := mkTimer1 (TCCR1A t1) 0 in
  let t3 := mkTimer1 (TCCR1A t2)
                     (to_uint8 (Z.lor (TCCR1B t2) (Z.shiftl 1 CS11))) in
  (t3, calls).

Definition setup (CS11 : Z) (t : timer1) : timer1 * list setup_call :=
  let r := setupPPM CS11 t in
  (fst r, snd r ++ [Call_Serial_begin 115200]).

(** ** Interrupts inside [loop]

    [read_ppm] is an interrupt routine: it also runs between two statements
    of [loop].  The machine below gives the main program a position inside
    [loop] and its local [total], executes [loop] one statement at a time
    and lets an interrupt fire between any two statements.  When [loop]
    returns, the Arduino core calls it again. *)
Inductive position : Type :=
  | At_total                   (* line 29: unsigned int total = channel[8] *)
  | At_test                    (* line 30: if (readyToShow) *)
  | At_for (i : Z)             (* line 32: i < 8 *)
  | At_print_number (i : Z)    (* line 33: Serial.print(i + 1) *)
  | At_print_colon (i : Z)     (* line 34: Serial.print(": ") *)
  | At_print_value (i : Z)     (* line 35: Serial.print(channel[i]) *)
  | At_print_semicolon (i : Z) (* line 36: Serial.print("; ") *)
  | At_add (i : Z)             (* line 37: total += channel[i], then i++ *)
  | At_pause_label             (* line 39: Serial.print("Pause: ") *)
  | At_pause_value             (* line 40: Serial.print(channel[8]) *)
  | At_total_label             (* line 41: Serial.print("; Total = ") *)
  | At_println                 (* line 42: Serial.println(total) *)
  | At_release                 (* line 43: readyToShow = false *)
  | At_unsync                  (* line 44: currentChannel = -1 *)
  | At_delay.                  (* line 45: delay(2000) *)

(** One statement of [loop]: where the program goes next and the new value
    of [total]. *)
Definition statement (p : position) (total : Z) : M (position * Z) :=
  match p with
  | At_total => v <- load 8 ; ret (At_test, v)
  | At_test =>
      ready <- gets readyToShow ;
      ret (if ready then At_for 0 else At_total, total)
  | At_for i => ret (if i <? 8 then At_print_number i else At_pause_label, total)
  | At_print_number i =>
      emit (Serial_print_int (to_int (i + 1))) ;; ret (At_print_colon i, total)
  | At_print_colon i => emit (Serial_print_str ": ") ;; ret (At_print_value i, total)
  | At_print_value i =>
      v <- load i ; emit (Serial_print_uint v) ;; ret (At_print_semicolon i, total)
  | At_print_semicolon i => emit (Serial_print_str "; ") ;; ret (At_add i, total)
  | At_add i => v <- load i ; ret (At_for (to_int (i + 1)), to_uint (total + v))
  | At_pause_label => emit (Serial_print_str "Pause: ") ;; ret (At_pause_value, total)
  | At_pause_value =>
      v <- load 8 ; emit (Serial_print_uint v) ;; ret (At_total_label, total)
  | At_total_label => emit (Serial_print_str "; Total = ") ;; ret (At_println, total)
  | At_println => emit (Serial_println_uint total) ;; ret (At_release, total)
  | At_release => set_readyToShow false ;; ret (At_unsync, total)
  | At_unsync => set_currentChannel (-1) ;; ret (At_delay, total)
  | At_delay => emit (Delay 2000) ;; ret (At_total, total)
  end.

Record machine : Type := mkMachine {
  at_line : position;      (* where the main program stands *)
  main_total : Z;          (* the local total of loop() *)
  globals : state
}.

(** Right after [setup]; [total] does not exist yet, any value will do. *)
Definition boot : machine := mkMachine At_total 0 initial.

Inductive slot : Type :=
  | Irq (tcnt : Z)      (* rising edge: read_ppm runs *)
  | Tick.               (* the main program executes one statement *)

Definition advance (x : slot) (m : machine) : machine * list event :=
  match x with
  | Irq tcnt =>
      let r := step (Edge tcnt) (globals m) in
      (mkMachine (at_line m) (main_total m) (snd (fst r)), snd r)
  | Tick =>
      let r := statement (at_line m) (main_total m) (globals m) in
      (mkMachine (fst (fst (fst r))) (snd (fst (fst r))) (snd (fst r)), snd r)
  end.

Fixpoint schedule (xs : list slot) (m : machine) : machine * list event :=
  match xs with
  | [] => (m, [])
  | x :: rest =>
      let a := advance x m in
      let b := schedule rest (fst a) in
      (fst b, snd a ++ snd b)
  end.

(** ** Trains of channel pulses

    The counter values of the edges of a run, in order; and, along them, the
    number of short intervals (at most 2500 microseconds) since the last
    long one. *)
Definition edges (ins : list input) : list Z :=
  omap (fun i => match i with Edge tcnt => Some tcnt | Pass => None end) ins.

Definition irqs (xs : list slot) : list Z :=
  omap (fun x => match x with Irq tcnt => Some tcnt | Tick => None end) xs.

Definition train_after (n tcnt : Z) : Z :=
  if 2500 <? elapsed_us tcnt then 0 else n + 1.

Fixpoint pulse_train (n : Z) (tcnts : list Z) : Z :=
  match tcnts with
  | [] => n
  | t :: rest => pulse_train (train_after n t) rest
  end.

(** No train of short intervals gets longer than an [int] can count. *)
Fixpoint trains_fit (n : Z) (tcnts : list Z) : bool :=
  match tcnts with
  | [] => true
  | t :: rest => (train_after n t <=? 32767) && trains_fit (train_after n t) rest
  end.

(** Sum of the first [i] channel slots. *)
Definition channels_sum (i : nat) (s : state) : Z := sum_list (take i (channel s)).

(** ** Invariants used below *)

(** What ties [currentChannel] to the train of short intervals [n]. *)
Definition index_fits (s : state) (n : Z) : Prop :=
  0 <= n /\ -1 <= currentChannel s <= n
  /\ (readyToShow s = true -> currentChannel s <= 0).

(** A pending frame, interrupts inside [loop] included. *)
Definition pending_frame_closed (s : state) : Prop :=
  readyToShow s = true ->
  (currentChannel s = 0 \/ currentChannel s = -1)
  /\ exists v, drop 8 (channel s) = [v] /\ 2500 < v < 32768.

(** What [total] holds at each position of [loop]. *)
Definition total_fits (m : machine) : Prop :=
  match at_line m with
  | At_total | At_unsync | At_delay => True
  | At_test => 0 <= main_total m < 32768
  | At_for i =>
      readyToShow (globals m) = true /\ 0 <= i <= 8
      /\ 0 <= main_total m - channels_sum (Z.to_nat i) (globals m) < 32768
  | At_print_number i | At_print_colon i | At_print_value i
  | At_print_semicolon i | At_add i =>
      readyToShow (globals m) = true /\ 0 <= i < 8
      /\ 0 <= main_total m - channels_sum (Z.to_nat i) (globals m) < 32768
  | At_pause_label | At_pause_value | At_total_label | At_println | At_release =>
      readyToShow (globals m) = true
      /\ 0 <= main_total m - channels_sum 8 (globals m) < 32768
  end.

(** The invariant of the statement-level machine; [n] is the current train. *)
Definition sound (m : machine) (n : Z) : Prop :=
  index_fits (globals m) n /\ plausible (globals m)
  /\ pending_frame_closed (globals m) /\ total_fits m.

(** The schedule of the race at lines 43/44: a complete frame, its report
    up to and including [readyToShow = false], an edge after a long pause,
    and then [currentChannel = -1]. *)
Definition race_at_release : list slot :=
  Irq 6000 :: repeat (Irq 3000) 8 ++ [Irq 6000] ++ repeat Tick 56
  ++ [Irq 6000; Tick].

(** The schedule of the race at lines 29/30: the pause that closes the
    frame arrives after [total = channel[8]] and before the flag is tested;
    the report then runs up to [println]. *)
Definition race_at_total : list slot :=
  Irq 6000 :: repeat (Irq 3000) 8 ++ [Tick; Irq 6000] ++ repeat Tick 53.

(** The increment [currentChannel++] of line 80 is about to overflow. *)
Definition overflowing (i : input) (s : state) : bool :=
  match i with
  | Edge tcnt =>
      negb (readyToShow s) && negb (2500 <? elapsed_us tcnt)
      && (currentChannel s =? 32767)
  | Pass => false
  end.

(** A run along which that never happens. *)
Fixpoint no_overflow (ins : list input) (s : state) : bool :=
  match ins with
  | [] => true
  | i :: rest => negb (overflowing i s) && no_overflow rest (exec (step i) s)
  end.

(** * Verification *)

(** ** Machine integers *)

Lemma to_uint_range (z : Z) : 0 <= to_uint z < 65536.
Proof. unfold to_uint. apply Z.mod_pos_bound. lia. Qed.

Lemma to_uint_small (z : Z) : 0 <= z < 65536 -> to_uint z = z.
Proof. unfold to_uint. apply Z.mod_small. Qed.

Lemma to_uint_idem (z : Z) : to_uint (to_uint z) = to_uint z.
Proof. apply to_uint_small, to_uint_range. Qed.

Lemma to_int_small (z : Z) : -32768 <= z < 32768 -> to_int z = z.
Proof. intros H. unfold to_int. rewrite Z.mod_small; lia. Qed.

Lemma to_int_range (z : Z) : -32768 <= to_int z < 32768.
Proof.
  unfold to_int. pose proof (Z.mod_pos_bound (z + 32768) 65536). lia.
Qed.

Lemma elapsed_us_range (tcnt : Z) : 0 <= elapsed_us tcnt < 32768.
Proof.
  unfold elapsed_us. pose proof (to_uint_range tcnt) as H.
  rewrite Z.shiftr_div_pow2 by lia. change (2 ^ 1) with 2.
  split; [apply Z.div_pos; lia | apply Z.div_lt_upper_bound; lia].
Qed.

Lemma elapsed_us_even (e : Z) : 0 <= e < 32768 -> elapsed_us (2 * e) = e.
Proof.
  intros H. unfold elapsed_us. rewrite to_uint_small by lia.
  rewrite Z.shiftr_div_pow2 by lia. change (2 ^ 1) with 2.
  rewrite Z.mul_comm. apply Z.div_mul. lia.
Qed.

(** ** One interrupt, case by case *)

Ltac run_sketch :=
  cbv beta iota zeta delta
    [step run read_ppm sync_gap_branch channel_pulse_branch loop
     bind ret gets modify emit when store load exec trace
     set_readyToShow set_currentChannel set_TCNT1 set_pauseDuration
     fst snd negb app
     channel readyToShow currentChannel TCNT1 pauseDuration];
  rewrite ?to_uint_idem.

Ltac decide_test b :=
  let E := fresh "E" in
  destruct b eqn:E;
  try (apply Z.ltb_lt in E); try (apply Z.ltb_ge in E);
  try (apply Z.eqb_eq in E); try (apply Z.eqb_neq in E);
  try (exfalso; lia); try (exfalso; congruence).

Section OneEdge.

Variable s : state.
Variable tcnt : Z.

Lemma edge_blocked :
  readyToShow s = true ->
  step (Edge tcnt) s =
    (tt, mkState (channel s) true (currentChannel s) 0 (elapsed_us tcnt), []).
Proof.
  destruct s as [ch r c t p]; cbn [readyToShow currentChannel channel].
  intros ->. run_sketch. reflexivity.
Qed.

Lemma edge_first_gap :
  readyToShow s = false -> currentChannel s = -1 -> 2500 < elapsed_us tcnt ->
  step (Edge tcnt) s = (tt, mkState (channel s) false 0 0 (elapsed_us tcnt), []).
Proof.
  destruct s as [ch r c t p]; cbn [readyToShow currentChannel channel].
  intros -> -> He. run_sketch. fold (elapsed_us tcnt).
  decide_test (2500 <? elapsed_us tcnt). reflexivity.
Qed.

Lemma edge_gap :
  readyToShow s = false -> currentChannel s <> -1 -> 2500 < elapsed_us tcnt ->
  step (Edge tcnt) s =
    (tt,
     mkState (assign (channel s) 8 (elapsed_us tcnt)) true 0 0 (elapsed_us tcnt),
     [Store 8 (elapsed_us tcnt)]).
Proof.
  destruct s as [ch r c t p]; cbn [readyToShow currentChannel channel].
  intros -> Hc He. run_sketch. fold (elapsed_us tcnt).
  decide_test (2500 <? elapsed_us tcnt). decide_test (c =? -1). reflexivity.
Qed.

Lemma edge_pulse_unsynchronized :
  readyToShow s = false -> currentChannel s = -1 -> elapsed_us tcnt <= 2500 ->
  step (Edge tcnt) s = (tt, mkState (channel s) false (-1) 0 (elapsed_us tcnt), []).
Proof.
  destruct s as [ch r c t p]; cbn [readyToShow currentChannel channel].
  intros -> -> He. run_sketch. fold (elapsed_us tcnt).
  decide_test (2500 <? elapsed_us tcnt). reflexivity.
Qed.

Lemma edge_pulse_counted :
  readyToShow s = false -> currentChannel s <> -1 -> currentChannel s < 8 ->
  elapsed_us tcnt <= 2500 ->
  step (Edge tcnt) s =
    (tt,
     mkState (assign (channel s) (currentChannel s) (elapsed_us tcnt)) false
             (to_int (currentChannel s + 1)) 0 (elapsed_us tcnt),
     [Store (currentChannel s) (elapsed_us tcnt)]).
Proof.
  destruct s as [ch r c t p]; cbn [readyToShow currentChannel channel].
  intros -> Hc Hc8 He. run_sketch. fold (elapsed_us tcnt).
  decide_test (2500 <? elapsed_us tcnt). decide_test (c =? -1).
  decide_test (c <? 8). reflexivity.
Qed.

Lemma edge_pulse_surplus :
  readyToShow s = false -> 8 <= currentChannel s -> elapsed_us tcnt <= 2500 ->
  step (Edge tcnt) s =
    (tt,
     mkState (channel s) false (to_int (currentChannel s + 1)) 0 (elapsed_us tcnt),
     []).
Proof.
  destruct s as [ch r c t p]; cbn [readyToShow currentChannel channel].
  intros -> Hc He. run_sketch. fold (elapsed_us tcnt).
  decide_test (2500 <? elapsed_us tcnt). decide_test (c =? -1).
  decide_test (c <? 8). reflexivity.
Qed.

End OneEdge.

(** ** One pass of the main loop *)

Lemma for_each_report (idx : list Z) (total : Z) (s : state) :
  for_each idx print_channel total s
  = (accumulate (channel s) idx total, s,
     flat_map (iteration_trace (channel s)) idx).
Proof.
  revert total. induction idx as [|i idx IH]; intros total; [reflexivity|].
  cbn [for_each flat_map accumulate fold_left]. unfold bind at 1.
  rewrite IH. reflexivity.
Qed.

Lemma loop_idle (s : state) :
  readyToShow s = false -> loop s = (tt, s, [Fetch 8]).
Proof.
  destruct s as [ch r c t p]; cbn [readyToShow]. intros ->. reflexivity.
Qed.

Lemma loop_report (s : state) :
  readyToShow s = true ->
  loop s =
    (tt,
     mkState (channel s) false (-1) (TCNT1 s) (pauseDuration s),
     Fetch 8 :: flat_map (iteration_trace (channel s)) (seqZ 0 8) ++
     [Serial_print_str "Pause: "; Fetch 8; Serial_print_uint (subscript (channel s) 8);
      Serial_print_str "; Total = ";
      Serial_println_uint (accumulate (channel s) (seqZ 0 8) (subscript (channel s) 8));
      Delay 2000]).
Proof.
  destruct s as [ch r c t p]; cbn [readyToShow channel TCNT1 pauseDuration].
  intros ->. unfold loop.
  cbv beta iota zeta delta [bind load gets readyToShow when fst snd].
  rewrite for_each_report.
  cbv beta iota zeta delta
    [emit modify ret set_readyToShow set_currentChannel fst snd
     channel readyToShow currentChannel TCNT1 pauseDuration].
  reflexivity.
Qed.

(** ** Runs *)

Lemma exec_run_cons (i : input) (rest : list input) (s : state) :
  exec (run (i :: rest)) s = exec (run rest) (exec (step i) s).
Proof. reflexivity. Qed.

Lemma trace_run_cons (i : input) (rest : list input) (s : state) :
  trace (run (i :: rest)) s =
  trace (step i) s ++ trace (run rest) (exec (step i) s).
Proof. reflexivity. Qed.

Lemma exec_run_app (a b : list input) (s : state) :
  exec (run (a ++ b)) s = exec (run b) (exec (run a) s).
Proof.
  revert s. induction a as [|i a IH]; intros s; [reflexivity|].
  rewrite <- app_comm_cons, !exec_run_cons. apply IH.
Qed.

Lemma trace_run_app (a b : list input) (s : state) :
  trace (run (a ++ b)) s = trace (run a) s ++ trace (run b) (exec (run a) s).
Proof.
  revert s. induction a as [|i a IH]; intros s; [reflexivity|].
  rewrite <- app_comm_cons, !trace_run_cons, exec_run_cons, IH.
  apply app_assoc.
Qed.

Lemma ready_history_app (a b : list input) (s : state) :
  ready_history (a ++ b) s =
  ready_history a s ++ ready_history b (exec (run a) s).
Proof.
  revert s. induction a as [|i a IH]; intros s; [reflexivity|].
  rewrite <- app_comm_cons. cbn [ready_history app].
  rewrite IH, exec_run_cons. reflexivity.
Qed.

(** The steps never change the size of the array. *)
Lemma assign_length (ch : list Z) (i v : Z) :
  length (assign ch i v) = length ch.
Proof. unfold assign. destruct (in_bounds i); [apply length_insert | reflexivity]. Qed.

Lemma step_well_formed (i : input) (s : state) :
  well_formed s -> well_formed (exec (step i) s).
Proof.
  unfold well_formed. intros H. destruct i as [tcnt|].
  - destruct (readyToShow s) eqn:Hr.
    { unfold exec. rewrite edge_blocked by assumption. exact H. }
    destruct (Z.ltb_spec 2500 (elapsed_us tcnt)) as [He|He];
      destruct (Z.eq_dec (currentChannel s) (-1)) as [Hc|Hc]; unfold exec.
    + rewrite edge_first_gap by assumption. exact H.
    + rewrite edge_gap by assumption. cbn [fst snd channel].
      now rewrite assign_length.
    + rewrite edge_pulse_unsynchronized by assumption. exact H.
    + destruct (Z.lt_ge_cases (currentChannel s) 8) as [H8|H8].
      * rewrite edge_pulse_counted by assumption. cbn [fst snd channel].
      now rewrite assign_length.
      * rewrite edge_pulse_surplus by assumption. exact H.
  - destruct (readyToShow s) eqn:Hr; unfold exec.
    + rewrite loop_report by assumption. exact H.
    + rewrite loop_idle by assumption. exact H.
Qed.

Lemma run_well_formed (ins : list input) (s : state) :
  well_formed s -> well_formed (exec (run ins) s).
Proof.
  revert s. induction ins as [|i ins IH]; intros s H; [exact H|].
  rewrite exec_run_cons. apply IH, step_well_formed, H.
Qed.

(** ** Channel pulses inside a frame *)

(** From [InFrame(n)], pulses that do not run past channel 8 are written
    into consecutive slots, and the flag stays clear all along. *)
Lemma pulses_fill (ts : list Z) :
  forall (s : state) (n : nat),
    readyToShow s = false ->
    currentChannel s = Z.of_nat n ->
    (n + length ts <= 8)%nat ->
    (8 < length (channel s))%nat ->
    Forall (fun t => elapsed_us t <= 2500) ts ->
    let s' := exec (run (map Edge ts)) s in
    channel s' =
      take n (channel s) ++ map elapsed_us ts ++ drop (n + length ts) (channel s)
    /\ readyToShow s' = false
    /\ currentChannel s' = Z.of_nat (n + length ts)
    /\ ready_history (map Edge ts) s = repeat false (length ts).
Proof.
  induction ts as [|t ts IH]; intros s n Hr Hc Hn Hlen Hts.
  - cbn. rewrite Nat.add_0_r, take_drop. auto.
  - inversion Hts as [|? ? Ht Hts']; subst. cbn beta in Ht. cbn [length] in Hn.
    cbn zeta. cbn [map ready_history]. rewrite exec_run_cons.
    set (s1 := mkState (<[n := elapsed_us t]> (channel s)) false
                       (Z.of_nat (S n)) 0 (elapsed_us t)).
    assert (Hexec : exec (step (Edge t)) s = s1).
    { unfold exec. rewrite edge_pulse_counted by (assumption || lia).
      rewrite Hc, to_int_small by lia. cbn [fst snd]. subst s1.
      unfold assign, in_bounds.
      replace ((0 <=? Z.of_nat n) && (Z.of_nat n <? 9)) with true
        by (symmetry; apply andb_true_iff; split;
            [apply Z.leb_le | apply Z.ltb_lt]; lia).
      rewrite Nat2Z.id. do 2 f_equal. lia. }
    rewrite Hexec.
    destruct (IH s1 (S n)) as (Hch & Hr' & Hc' & Hh);
      [reflexivity | reflexivity | lia
      | subst s1; cbn [channel]; rewrite length_insert; exact Hlen
      | assumption |].
    rewrite Hch, Hr', Hc', Hh. subst s1. cbn [channel readyToShow length repeat].
    repeat split; try (f_equal; lia).
    rewrite (take_S_r _ n (elapsed_us t))
      by (apply list_lookup_insert_eq; lia).
    rewrite take_insert_ge by lia.
    rewrite drop_insert_lt by lia.
    rewrite <- app_assoc. cbn [app map].
    replace (S n + length ts)%nat with (n + S (length ts))%nat by lia.
    reflexivity.
Qed.

(** A synchronized decoder that sees eight channel intervals and then a
    long pause has the whole frame in the array and raises the flag on the
    last edge only. *)
Lemma frame_run (s : state) (ts : list Z) (g : Z) :
  well_formed s -> currentChannel s = 0 -> readyToShow s = false ->
  length ts = 8%nat ->
  Forall (fun t => elapsed_us t <= 2500) ts ->
  2500 < elapsed_us g ->
  ready_history (map Edge ts ++ [Edge g]) s = repeat false 8 ++ [true]
  /\ readyToShow (exec (run (map Edge ts ++ [Edge g])) s) = true
  /\ currentChannel (exec (run (map Edge ts ++ [Edge g])) s) = 0
  /\ channel (exec (run (map Edge ts ++ [Edge g])) s) =
       map elapsed_us ts ++ [elapsed_us g].
Proof.
  intros Hwf Hc Hr Hlen Hts Hg. unfold well_formed in Hwf.
  destruct (pulses_fill ts s 0) as (Hch & Hr' & Hc' & Hh);
    [assumption | assumption | lia | lia | assumption |].
  cbn zeta in *. rewrite Hlen in *.
  change (take 0 (channel s)) with (@nil Z) in Hch.
  cbn [app Nat.add] in Hch.
  rewrite ready_history_app, exec_run_app, Hh.
  set (s8 := exec (run (map Edge ts)) s) in *.
  assert (Hstep : exec (step (Edge g)) s8 =
            mkState (assign (channel s8) 8 (elapsed_us g)) true 0 0
                    (elapsed_us g)).
  { unfold exec. rewrite edge_gap;
      [reflexivity | assumption | rewrite Hc'; discriminate | assumption]. }
  rewrite exec_run_cons. cbn [ready_history]. rewrite Hstep.
  change (exec (run []) ?x) with x.
  cbn [readyToShow currentChannel channel].
  repeat split.
  rewrite Hch. change (assign ?l 8 ?v) with (<[8%nat := v]> l).
  rewrite insert_app_r_alt by (rewrite length_map; lia).
  rewrite length_map, Hlen. cbn [Nat.sub].
  assert (Hd : length (drop 8 (channel s)) = 1%nat)
    by (rewrite length_drop, Hwf; reflexivity).
  destruct (drop 8 (channel s)) as [|x [|y rest]]; try discriminate Hd.
  reflexivity.
Qed.

(** ** Which branch an edge takes *)

Lemma edge_classified (s : state) (tcnt : Z) :
  readyToShow s = false ->
  step (Edge tcnt) s =
    (if 2500 <? elapsed_us tcnt then sync_gap_branch else channel_pulse_branch)
      (latched s tcnt).
Proof.
  destruct s as [ch r c t p]; cbn [readyToShow]. intros ->.
  unfold latched. run_sketch. fold (elapsed_us tcnt).
  destruct (2500 <? elapsed_us tcnt); reflexivity.
Qed.

(** ** The text on the serial line *)

Lemma append_empty_r (x : string) : String.append x EmptyString = x.
Proof. induction x as [|a x IH]; [reflexivity|]. cbn [String.append]. now rewrite IH. Qed.

(** Only the calls to [Serial] put characters on the line. *)
Lemma serial_text_calls (t : list event) :
  serial_text t = serial_text (serial_calls t).
Proof.
  induction t as [|e t IH]; [reflexivity|].
  unfold serial_calls in *.
  destruct e; cbn [List.filter is_serial]; unfold serial_text in *;
    cbn [fold_right text_of]; rewrite <- ?IH; reflexivity.
Qed.

(** ** How far [currentChannel] can move in one step *)

Lemma step_index_cases (i : input) (s : state) :
  currentChannel (exec (step i) s) = currentChannel s
  \/ currentChannel (exec (step i) s) = 0
  \/ currentChannel (exec (step i) s) = -1
  \/ (currentChannel s <> -1
      /\ currentChannel (exec (step i) s) = to_int (currentChannel s + 1)).
Proof.
  destruct i as [tcnt|]; unfold exec.
  - destruct (readyToShow s) eqn:Hr.
    { rewrite edge_blocked by assumption. now left. }
    destruct (Z.ltb_spec 2500 (elapsed_us tcnt)) as [He|He];
      destruct (Z.eq_dec (currentChannel s) (-1)) as [Hc|Hc].
    + rewrite edge_first_gap by assumption. right; now left.
    + rewrite edge_gap by assumption. right; now left.
    + rewrite edge_pulse_unsynchronized by assumption. right; right; now left.
    + destruct (Z.lt_ge_cases (currentChannel s) 8) as [H8|H8].
      * rewrite edge_pulse_counted by assumption. right; right; right; now split.
      * rewrite edge_pulse_surplus by assumption. right; right; right; now split.
  - destruct (readyToShow s) eqn:Hr.
    + rewrite loop_report by assumption. right; right; now left.
    + rewrite loop_idle by assumption. now left.
Qed.

Lemma step_index_bound (i : input) (s : state) (k : Z) :
  -1 <= currentChannel s <= k -> k < 32767 ->
  -1 <= currentChannel (exec (step i) s) <= k + 1.
Proof.
  intros Hc Hk.
  destruct (step_index_cases i s) as [H|[H|[H|[Hne H]]]]; rewrite H; try lia.
  rewrite to_int_small by lia. lia.
Qed.

Lemma run_index_bound (ins : list input) :
  forall (s : state) (k : Z),
    -1 <= currentChannel s <= k -> k + Z.of_nat (length ins) <= 32767 ->
    -1 <= currentChannel (exec (run ins) s) <= k + Z.of_nat (length ins).
Proof.
  induction ins as [|i ins IH]; intros s k Hc Hk.
  - cbn [length] in *. change (exec (run []) s) with s. lia.
  - cbn [length] in *. rewrite exec_run_cons.
    specialize (IH (exec (step i) s) (k + 1)).
    replace (k + Z.of_nat (S (length ins)))
      with (k + 1 + Z.of_nat (length ins)) in * by lia.
    apply IH; [apply step_index_bound; lia | lia].
Qed.

(** ** Accesses to the array *)

Lemma step_accesses (i : input) (s : state) :
  -1 <= currentChannel s ->
  Forall (fun a => in_bounds a = true) (accesses (trace (step i) s)).
Proof.
  intros Hc. destruct i as [tcnt|]; unfold trace.
  - destruct (readyToShow s) eqn:Hr.
    { rewrite edge_blocked by assumption. constructor. }
    destruct (Z.ltb_spec 2500 (elapsed_us tcnt)) as [He|He];
      destruct (Z.eq_dec (currentChannel s) (-1)) as [Hc1|Hc1].
    + rewrite edge_first_gap by assumption. constructor.
    + rewrite edge_gap by assumption. repeat constructor.
    + rewrite edge_pulse_unsynchronized by assumption. constructor.
    + destruct (Z.lt_ge_cases (currentChannel s) 8) as [H8|H8].
      * rewrite edge_pulse_counted by assumption.
        repeat constructor. unfold in_bounds.
        apply andb_true_iff; split; [apply Z.leb_le | apply Z.ltb_lt]; lia.
      * rewrite edge_pulse_surplus by assumption. constructor.
  - destruct (readyToShow s) eqn:Hr.
    + rewrite loop_report by assumption. cbn [snd].
      change (seqZ 0 8) with [0; 1; 2; 3; 4; 5; 6; 7].
      repeat constructor.
    + rewrite loop_idle by assumption. repeat constructor.
Qed.

(** As long as the counter cannot have run over, every subscript is inside
    the array. *)
Lemma run_accesses (ins : list input) :
  forall (s : state) (k : Z),
    -1 <= currentChannel s <= k -> k + Z.of_nat (length ins) <= 32767 ->
    Forall (fun a => in_bounds a = true) (accesses (trace (run ins) s)).
Proof.
  induction ins as [|i ins IH]; intros s k Hc Hk.
  - constructor.
  - cbn [length] in Hk. rewrite trace_run_cons. unfold accesses.
    rewrite omap_app. apply Forall_app. split.
    + apply step_accesses. lia.
    + apply (IH _ (k + 1)); [apply step_index_bound; lia | lia].
Qed.

(** From the initial state, no run of at most 32768 steps leaves the array. *)
Lemma bounded_run_in_bounds (ins : list input) :
  Z.of_nat (length ins) <= 32768 ->
  Forall (fun a => in_bounds a = true) (accesses (trace (run ins) initial)).
Proof.
  intros Hlen. apply (run_accesses ins initial (-1)); cbn [currentChannel initial]; lia.
Qed.

(** ** A frame that never ends *)

(** Inside a frame every short interval is counted, stored or not. *)
Lemma short_intervals_count (t : Z) (n : nat) :
  elapsed_us t <= 2500 ->
  forall s : state,
    readyToShow s = false -> 0 <= currentChannel s ->
    currentChannel s + Z.of_nat n <= 32767 ->
    readyToShow (exec (run (repeat (Edge t) n)) s) = false
    /\ currentChannel (exec (run (repeat (Edge t) n)) s) =
         currentChannel s + Z.of_nat n.
Proof.
  intros He. induction n as [|n IH]; intros s Hr Hc Hn.
  - change (exec (run (repeat (Edge t) 0)) s) with s. split; [assumption|lia].
  - cbn [repeat]. rewrite exec_run_cons.
    assert (Hstep : readyToShow (exec (step (Edge t)) s) = false
                    /\ currentChannel (exec (step (Edge t)) s) =
                         currentChannel s + 1).
    { unfold exec. destruct (Z.lt_ge_cases (currentChannel s) 8).
      - rewrite edge_pulse_counted by (assumption || lia).
        cbn [fst snd readyToShow currentChannel].
        rewrite to_int_small by lia. now split.
      - rewrite edge_pulse_surplus by (assumption || lia).
        cbn [fst snd readyToShow currentChannel].
        rewrite to_int_small by lia. now split. }
    destruct Hstep as [Hr1 Hc1].
    destruct (IH (exec (step (Edge t)) s)) as [Hr2 Hc2];
      [assumption | lia | lia |].
    split; [assumption | lia].
Qed.

Lemma trace_run_snoc (ins : list input) (i : input) (s : state) :
  trace (run (ins ++ [i])) s =
  trace (run ins) s ++ trace (step i) (exec (run ins) s).
Proof.
  rewrite trace_run_app, trace_run_cons.
  change (trace (run []) ?x) with (@nil event). now rewrite app_nil_r.
Qed.

Lemma exec_run_snoc (ins : list input) (i : input) (s : state) :
  exec (run (ins ++ [i])) s = exec (step i) (exec (run ins) s).
Proof. rewrite exec_run_app. reflexivity. Qed.

Lemma runaway_snoc (n : Z) :
  0 <= n -> runaway (n + 1) = runaway n ++ [Edge 3000].
Proof.
  intros Hn. unfold runaway. rewrite Z2Nat.inj_add by lia.
  rewrite repeat_app. reflexivity.
Qed.

Lemma runaway_counts (n : Z) :
  0 <= n <= 32767 ->
  readyToShow (exec (run (runaway n)) initial) = false
  /\ currentChannel (exec (run (runaway n)) initial) = n.
Proof.
  intros Hn. unfold runaway. rewrite exec_run_cons.
  assert (Hsync : exists s1, exec (step (Edge 6000)) initial = s1
                    /\ readyToShow s1 = false /\ currentChannel s1 = 0)
    by (eexists; repeat split).
  destruct Hsync as (s1 & -> & Hr1 & Hc1).
  destruct (short_intervals_count 3000 (Z.to_nat n)) with (s := s1) as [Hr Hc];
    [vm_compute; discriminate | assumption | lia | lia |].
  split; [assumption | lia].
Qed.

Lemma wrap_then_store (s : state) :
  readyToShow s = false -> currentChannel s = 32767 ->
  currentChannel (exec (step (Edge 3000)) s) = -32768
  /\ trace (step (Edge 3000)) (exec (step (Edge 3000)) s) = [Store (-32768) 1500].
Proof.
  intros Hr Hc.
  assert (He : elapsed_us 3000 = 1500) by reflexivity.
  assert (Hwrap : step (Edge 3000) s =
            (tt, mkState (channel s) false (-32768) 0 1500, [])).
  { rewrite edge_pulse_surplus by (assumption || lia).
    rewrite Hc, He. reflexivity. }
  unfold exec, trace. rewrite Hwrap. cbn [fst snd]. split; [reflexivity|].
  rewrite edge_pulse_counted;
    [now rewrite He | reflexivity | discriminate | reflexivity
    | rewrite He; lia].
Qed.

(** ** The index and the trains of pulses *)

Lemma edge_index_fits (s : state) (n tcnt : Z) :
  index_fits s n -> train_after n tcnt <= 32767 ->
  index_fits (exec (step (Edge tcnt)) s) (train_after n tcnt).
Proof.
  intros (Hn & Hc & Hf) Hfit. unfold index_fits, train_after, exec in *.
  destruct (readyToShow s) eqn:Hr.
  { rewrite edge_blocked by assumption.
    cbn [fst snd readyToShow currentChannel].
    specialize (Hf eq_refl). destruct (2500 <? elapsed_us tcnt); repeat split; try lia; try discriminate. }
  destruct (Z.ltb_spec 2500 (elapsed_us tcnt)) as [He|He];
    destruct (Z.eq_dec (currentChannel s) (-1)) as [Hc1|Hc1].
  - rewrite edge_first_gap by assumption.
    cbn [fst snd readyToShow currentChannel]. repeat split; try lia; try discriminate.
  - rewrite edge_gap by assumption.
    cbn [fst snd readyToShow currentChannel]. repeat split; try lia; try discriminate.
  - rewrite edge_pulse_unsynchronized by assumption.
    cbn [fst snd readyToShow currentChannel]. repeat split; try lia; try discriminate.
  - destruct (Z.lt_ge_cases (currentChannel s) 8) as [H8|H8].
    + rewrite edge_pulse_counted by assumption.
      cbn [fst snd readyToShow currentChannel].
      rewrite to_int_small by lia. repeat split; try lia; try discriminate.
    + rewrite edge_pulse_surplus by assumption.
      cbn [fst snd readyToShow currentChannel].
      rewrite to_int_small by lia. repeat split; try lia; try discriminate.
Qed.

Lemma pass_index_fits (s : state) (n : Z) :
  index_fits s n -> index_fits (exec (step Pass) s) n.
Proof.
  intros (Hn & Hc & Hf). unfold index_fits, exec in *. cbn [step].
  destruct (readyToShow s) eqn:Hr.
  - rewrite loop_report by assumption.
    cbn [fst snd readyToShow currentChannel]. repeat split; try lia; try discriminate.
  - rewrite loop_idle by assumption. cbn [fst snd]. rewrite Hr.
    repeat split; try lia; try discriminate.
Qed.

Lemma edges_cons_edge (t : Z) (ins : list input) :
  edges (Edge t :: ins) = t :: edges ins.
Proof. reflexivity. Qed.

Lemma edges_cons_pass (ins : list input) : edges (Pass :: ins) = edges ins.
Proof. reflexivity. Qed.

Lemma run_index_fits (ins : list input) :
  forall (s : state) (n : Z),
    index_fits s n -> trains_fit n (edges ins) = true ->
    index_fits (exec (run ins) s) (pulse_train n (edges ins)).
Proof.
  induction ins as [|i ins IH]; intros s n Hinv Hfit; [exact Hinv|].
  rewrite exec_run_cons. destruct i as [t|].
  - rewrite edges_cons_edge in *. cbn [trains_fit pulse_train] in *.
    apply andb_true_iff in Hfit as [H1 H2]. apply Z.leb_le in H1.
    apply IH; [apply edge_index_fits; assumption | exact H2].
  - rewrite edges_cons_pass in *. apply IH; [apply pass_index_fits|]; assumption.
Qed.

(** After the pause that synchronizes it the decoder counts every short
    interval. *)
Lemma synchronized_counts (ts : list Z) :
  forall s : state,
    readyToShow s = false -> 0 <= currentChannel s ->
    currentChannel s + Z.of_nat (length ts) <= 32767 ->
    Forall (fun t => elapsed_us t <= 2500) ts ->
    readyToShow (exec (run (map Edge ts)) s) = false
    /\ currentChannel (exec (run (map Edge ts)) s) =
         currentChannel s + Z.of_nat (length ts).
Proof.
  induction ts as [|t ts IH]; intros s Hr Hc Hn Hts.
  - cbn [map length]. change (exec (run []) s) with s. split; [assumption|lia].
  - inversion Hts as [|? ? Ht Hts']; subst. cbn beta in Ht. cbn [length] in Hn.
    cbn [map]. rewrite exec_run_cons.
    assert (Hstep : readyToShow (exec (step (Edge t)) s) = false
                    /\ currentChannel (exec (step (Edge t)) s) =
                         currentChannel s + 1).
    { unfold exec. destruct (Z.lt_ge_cases (currentChannel s) 8).
      - rewrite edge_pulse_counted by (assumption || lia).
        cbn [fst snd readyToShow currentChannel].
        rewrite to_int_small by lia. now split.
      - rewrite edge_pulse_surplus by (assumption || lia).
        cbn [fst snd readyToShow currentChannel].
        rewrite to_int_small by lia. now split. }
    destruct Hstep as [Hr1 Hc1].
    destruct (IH (exec (step (Edge t)) s)) as [Hr2 Hc2];
      [assumption | lia | lia | assumption |].
    split; [assumption | cbn [length]; lia].
Qed.

Lemma edge_index_within (s : state) (n tcnt : Z) :
  index_fits s n -> currentChannel s <= 32767 ->
  overflowing (Edge tcnt) s = false ->
  index_fits (exec (step (Edge tcnt)) s) (train_after n tcnt)
  /\ currentChannel (exec (step (Edge tcnt)) s) <= 32767.
Proof.
  intros (Hn & Hc & Hf) Hmax Hov. unfold index_fits, train_after, exec in *.
  unfold overflowing in Hov.
  destruct (readyToShow s) eqn:Hr.
  { rewrite edge_blocked by assumption.
    cbn [fst snd readyToShow currentChannel].
    specialize (Hf eq_refl).
    destruct (2500 <? elapsed_us tcnt); repeat split; try lia; try discriminate. }
  destruct (Z.ltb_spec 2500 (elapsed_us tcnt)) as [He|He];
    destruct (Z.eq_dec (currentChannel s) (-1)) as [Hc1|Hc1].
  - rewrite edge_first_gap by assumption.
    cbn [fst snd readyToShow currentChannel]. repeat split; try lia; try discriminate.
  - rewrite edge_gap by assumption.
    cbn [fst snd readyToShow currentChannel]. repeat split; try lia; try discriminate.
  - rewrite edge_pulse_unsynchronized by assumption.
    cbn [fst snd readyToShow currentChannel]. repeat split; try lia; try discriminate.
  - cbn [negb andb] in Hov. apply Z.eqb_neq in Hov.
    destruct (Z.lt_ge_cases (currentChannel s) 8) as [H8|H8].
    + rewrite edge_pulse_counted by assumption.
      cbn [fst snd readyToShow currentChannel].
      rewrite to_int_small by lia. repeat split; try lia; try discriminate.
    + rewrite edge_pulse_surplus by assumption.
      cbn [fst snd readyToShow currentChannel].
      rewrite to_int_small by lia. repeat split; try lia; try discriminate.
Qed.

Lemma run_index_within (ins : list input) :
  forall (s : state) (n : Z),
    index_fits s n -> currentChannel s <= 32767 ->
    no_overflow ins s = true ->
    index_fits (exec (run ins) s) (pulse_train n (edges ins)).
Proof.
  induction ins as [|i ins IH]; intros s n Hinv Hmax Hno; [exact Hinv|].
  rewrite exec_run_cons. cbn [no_overflow] in Hno.
  apply andb_true_iff in Hno as [H1 H2]. apply negb_true_iff in H1.
  destruct i as [t|].
  - rewrite edges_cons_edge. cbn [pulse_train].
    destruct (edge_index_within s n t Hinv Hmax H1) as [Hi Hm].
    now apply IH.
  - rewrite edges_cons_pass.
    pose proof (pass_index_fits s n Hinv) as Hi.
    apply IH; [exact Hi | | exact H2].
    destruct Hi as (_ & Hc & _). unfold exec in *. cbn [step] in *.
    destruct (readyToShow s) eqn:Hr.
    + rewrite loop_report by assumption. cbn [fst snd currentChannel]. lia.
    + rewrite loop_idle by assumption. exact Hmax.
Qed.

(** Trains of at most 32767 short intervals never overflow the counter. *)
Lemma trains_fit_no_overflow (ins : list input) :
  forall (s : state) (n : Z),
    index_fits s n -> trains_fit n (edges ins) = true ->
    no_overflow ins s = true.
Proof.
  induction ins as [|i ins IH]; intros s n Hinv Hfit; [reflexivity|].
  cbn [no_overflow]. destruct i as [t|].
  - rewrite edges_cons_edge in Hfit. cbn [trains_fit] in Hfit.
    apply andb_true_iff in Hfit as [H1 H2]. apply Z.leb_le in H1.
    apply andb_true_iff. split.
    + apply negb_true_iff. unfold overflowing.
      destruct Hinv as (Hn & Hc & _). unfold train_after in H1.
      destruct (readyToShow s); [reflexivity|].
      destruct (2500 <? elapsed_us t); [reflexivity|].
      cbn [negb andb]. apply Z.eqb_neq. lia.
    + apply (IH _ (train_after n t)); [apply edge_index_fits|]; assumption.
  - rewrite edges_cons_pass in Hfit. cbn [overflowing negb andb].
    apply (IH _ n); [apply pass_index_fits|]; assumption.
Qed.

(** * The claims *)

(** C1: from [InFrame(0)] with the flag clear, eight channel intervals of
    1000 to 2000 microseconds followed by one pause of more than 2500 raise
    the flag exactly once (on the ninth edge), leave the eight measured
    durations in [channel[0..7]] in order and the pause in [channel[8]]. *)
Theorem well_formed_frame_decoded (s : state) (ts : list Z) (g : Z) :
  well_formed s -> currentChannel s = 0 -> readyToShow s = false ->
  length ts = 8%nat ->
  Forall (fun t => 1000 <= elapsed_us t <= 2000) ts ->
  2500 < elapsed_us g ->
  let ins := map Edge ts ++ [Edge g] in
  ready_history ins s = repeat false 8 ++ [true]
  /\ assertions ins s = 1%nat
  /\ readyToShow (exec (run ins) s) = true
  /\ channel (exec (run ins) s) = map elapsed_us ts ++ [elapsed_us g].
Proof.
  intros Hwf Hc Hr Hlen Hts Hg ins.
  destruct (frame_run s ts g) as (Hh & Hr' & _ & Hch); try assumption.
  { eapply Forall_impl; [| exact Hts]. cbn beta; intros; lia. }
  subst ins. unfold assertions. rewrite Hh, Hr.
  repeat split; assumption.
Qed.

Lemma well_formed_frame_decoded_witness :
  let s := mkState [7; 7; 7; 7; 7; 7; 7; 7; 7] false 0 0 0 in
  let ins := map Edge [2000; 2200; 2400; 2600; 3000; 3400; 3800; 4001] ++ [Edge 9000] in
  ready_history ins s = repeat false 8 ++ [true]
  /\ assertions ins s = 1%nat
  /\ readyToShow (exec (run ins) s) = true
  /\ channel (exec (run ins) s) =
       [1000; 1100; 1200; 1300; 1500; 1700; 1900; 2000; 4500].
Proof.
  apply (well_formed_frame_decoded
           (mkState [7; 7; 7; 7; 7; 7; 7; 7; 7] false 0 0 0)
           [2000; 2200; 2400; 2600; 3000; 3400; 3800; 4001] 9000);
    try reflexivity.
  repeat constructor; vm_compute; discriminate.
Defined.

(** C2: while [readyToShow] is set an edge, whatever its timing, leaves the
    array, the flag and [currentChannel] as they are (and touches no element
    of the array). *)
Theorem edge_dropped_while_ready (s : state) (tcnt : Z) :
  readyToShow s = true ->
  channel (exec (step (Edge tcnt)) s) = channel s
  /\ readyToShow (exec (step (Edge tcnt)) s) = readyToShow s
  /\ currentChannel (exec (step (Edge tcnt)) s) = currentChannel s
  /\ accesses (trace (step (Edge tcnt)) s) = [].
Proof.
  intros Hr. unfold exec, trace. rewrite edge_blocked by assumption.
  cbn [fst snd channel readyToShow currentChannel]. rewrite Hr.
  repeat split.
Qed.

Lemma edge_dropped_while_ready_witness :
  let s := mkState [1500; 1400; 1300; 1200; 1100; 1000; 1900; 2000; 7000] true 0 0 7000 in
  channel (exec (step (Edge 3000)) s) = channel s
  /\ readyToShow (exec (step (Edge 3000)) s) = readyToShow s
  /\ currentChannel (exec (step (Edge 3000)) s) = currentChannel s
  /\ accesses (trace (step (Edge 3000)) s) = [].
Proof.
  apply (edge_dropped_while_ready
           (mkState [1500; 1400; 1300; 1200; 1100; 1000; 1900; 2000; 7000]
                    true 0 0 7000) 3000).
  reflexivity.
Defined.

(** C6: the first long pause seen by an unsynchronized decoder only
    establishes synchronization: [currentChannel] becomes 0, the flag stays
    clear and the array is not written. *)
Theorem first_gap_only_synchronizes (s : state) (tcnt : Z) :
  currentChannel s = -1 -> readyToShow s = false -> 2500 < elapsed_us tcnt ->
  currentChannel (exec (step (Edge tcnt)) s) = 0
  /\ readyToShow (exec (step (Edge tcnt)) s) = false
  /\ channel (exec (step (Edge tcnt)) s) = channel s
  /\ stores (trace (step (Edge tcnt)) s) = [].
Proof.
  intros Hc Hr He. unfold exec, trace. rewrite edge_first_gap by assumption.
  repeat split.
Qed.

Lemma first_gap_only_synchronizes_witness :
  currentChannel (exec (step (Edge 6000)) initial) = 0
  /\ readyToShow (exec (step (Edge 6000)) initial) = false
  /\ channel (exec (step (Edge 6000)) initial) = channel initial
  /\ stores (trace (step (Edge 6000)) initial) = [].
Proof.
  apply (first_gap_only_synchronizes initial 6000); reflexivity.
Defined.

(** C9: a pass of [loop] entered with the flag set ends with the flag clear
    and [currentChannel] at -1, and has not changed any of the nine array
    elements. *)
Theorem report_releases_buffer (s : state) :
  readyToShow s = true ->
  readyToShow (exec loop s) = false
  /\ currentChannel (exec loop s) = -1
  /\ channel (exec loop s) = channel s
  /\ stores (trace loop s) = [].
Proof.
  intros Hr. unfold exec, trace. rewrite loop_report by assumption.
  cbn [fst snd readyToShow currentChannel channel]. repeat split.
Qed.

Lemma report_releases_buffer_witness :
  let s := mkState [1500; 1400; 1300; 1200; 1100; 1000; 1900; 2000; 7000] true 0 0 7000 in
  readyToShow (exec loop s) = false
  /\ currentChannel (exec loop s) = -1
  /\ channel (exec loop s) = channel s
  /\ stores (trace loop s) = [].
Proof.
  apply (report_releases_buffer
           (mkState [1500; 1400; 1300; 1200; 1100; 1000; 1900; 2000; 7000]
                    true 0 0 7000)).
  reflexivity.
Defined.

(** C5: with the flag clear, an interval of exactly 2500 microseconds is
    handled by the channel-value branch, so no frame is completed by it and
    inside a frame the 2500 is stored as a channel value; the pause branch
    runs for intervals strictly above 2500 and for no others. *)
Theorem threshold_is_channel_pulse (s : state) (tcnt : Z) :
  readyToShow s = false -> elapsed_us tcnt = 2500 ->
  step (Edge tcnt) s = channel_pulse_branch (latched s tcnt)
  /\ readyToShow (exec (step (Edge tcnt)) s) = false
  /\ (0 <= currentChannel s < 8 ->
      channel (exec (step (Edge tcnt)) s) =
        <[Z.to_nat (currentChannel s) := 2500]> (channel s)
      /\ currentChannel (exec (step (Edge tcnt)) s) = currentChannel s + 1)
  /\ (forall tcnt' : Z,
        (2500 < elapsed_us tcnt' ->
         step (Edge tcnt') s = sync_gap_branch (latched s tcnt'))
        /\ (elapsed_us tcnt' <= 2500 ->
            step (Edge tcnt') s = channel_pulse_branch (latched s tcnt'))).
Proof.
  intros Hr He. split; [|split; [|split]].
  - rewrite edge_classified, He by assumption. reflexivity.
  - destruct (Z.eq_dec (currentChannel s) (-1)) as [Hc|Hc]; unfold exec.
    + rewrite edge_pulse_unsynchronized by (assumption || lia). reflexivity.
    + destruct (Z.lt_ge_cases (currentChannel s) 8).
      * rewrite edge_pulse_counted by (assumption || lia). reflexivity.
      * rewrite edge_pulse_surplus by (assumption || lia). reflexivity.
  - intros Hc. unfold exec.
    rewrite edge_pulse_counted by (assumption || lia).
    cbn [fst snd channel currentChannel]. rewrite He.
    rewrite to_int_small by lia. split; [|reflexivity].
    unfold assign, in_bounds.
    replace ((0 <=? currentChannel s) && (currentChannel s <? 9)) with true;
      [reflexivity|].
    symmetry; apply andb_true_iff; split; [apply Z.leb_le | apply Z.ltb_lt]; lia.
  - intros tcnt'. split; intros He'; rewrite edge_classified by assumption.
    + apply Z.ltb_lt in He'. rewrite He'. reflexivity.
    + apply Z.ltb_ge in He'. rewrite He'. reflexivity.
Qed.

Lemma threshold_is_channel_pulse_witness :
  let s := mkState [0; 0; 0; 0; 0; 0; 0; 0; 0] false 3 0 0 in
  step (Edge 5001) s = channel_pulse_branch (latched s 5001)
  /\ channel (exec (step (Edge 5001)) s) = [0; 0; 0; 2500; 0; 0; 0; 0; 0]
  /\ currentChannel (exec (step (Edge 5001)) s) = 4
  /\ readyToShow (exec (step (Edge 5001)) s) = false.
Proof.
  pose proof (threshold_is_channel_pulse
                (mkState [0; 0; 0; 0; 0; 0; 0; 0; 0] false 3 0 0) 5001
                eq_refl eq_refl) as (Hb & Hr & Hc & _).
  destruct Hc as (Hch & Hi); [cbn; lia|].
  repeat split; assumption.
Defined.

(** C7: an unsynchronized decoder with the flag clear that sees the ten
    intervals 3000, 8 x 1500, 3000 raises the flag exactly once, on the tenth
    edge and not on the first; the array then holds eight times 1500 and the
    pause 3000, which add up to 15000 -- and that is the line a pass of
    [loop] prints. *)
Theorem end_to_end_scenario (s : state) (ts : list Z) :
  well_formed s -> currentChannel s = -1 -> readyToShow s = false ->
  map elapsed_us ts = scenario ->
  ready_history (map Edge ts) s = repeat false 9 ++ [true]
  /\ assertions (map Edge ts) s = 1%nat
  /\ channel (exec (run (map Edge ts)) s) =
       [1500; 1500; 1500; 1500; 1500; 1500; 1500; 1500; 3000]
  /\ sum_list (channel (exec (run (map Edge ts)) s)) = 15000
  /\ serial_text (trace loop (exec (run (map Edge ts)) s)) =
       String.append
         "1: 1500; 2: 1500; 3: 1500; 4: 1500; 5: 1500; 6: 1500; 7: 1500; 8: 1500; Pause: 3000; Total = 15000"
         crlf.
Proof.
  intros Hwf Hc Hr Hts.
  destruct ts as [|t0 ts]; [discriminate|].
  cbn [map] in Hts. unfold scenario in Hts.
  injection Hts as Ht0 Hmid.
  assert (Hsplit : exists mid g, ts = mid ++ [g] /\ length mid = 8%nat
                     /\ map elapsed_us mid = repeat 1500 8
                     /\ elapsed_us g = 3000).
  { do 9 (destruct ts as [|? ts]; [discriminate|]).
    destruct ts; [|discriminate].
    exists [z; z0; z1; z2; z3; z4; z5; z6], z7.
    cbn [map] in Hmid. injection Hmid; intros.
    repeat split; [cbn [map repeat]; congruence | assumption]. }
  destruct Hsplit as (mid & g & -> & Hlen & Hmap & Hg).
  set (s0 := mkState (channel s) false 0 0 (elapsed_us t0)).
  assert (H0 : exec (step (Edge t0)) s = s0).
  { unfold exec. rewrite edge_first_gap by (assumption || lia). reflexivity. }
  destruct (frame_run s0 mid g) as (Hh & Hr' & _ & Hch);
    [exact Hwf | reflexivity | reflexivity | exact Hlen | | lia |].
  { apply Forall_forall. intros t Hin.
    assert (Hin' : In (elapsed_us t) (map elapsed_us mid)) by (apply in_map, Hin).
    rewrite Hmap in Hin'. apply repeat_spec in Hin'. lia. }
  assert (Hfinal : channel (exec (run (map Edge (t0 :: mid ++ [g]))) s) =
                   [1500; 1500; 1500; 1500; 1500; 1500; 1500; 1500; 3000]).
  { cbn [map]. rewrite exec_run_cons, H0, map_app. cbn [map].
    rewrite Hch, Hmap, Hg. reflexivity. }
  assert (Hhist : ready_history (map Edge (t0 :: mid ++ [g])) s =
                  repeat false 9 ++ [true]).
  { cbn [map ready_history]. rewrite H0, map_app. cbn [map].
    rewrite Hh. reflexivity. }
  split; [exact Hhist|]. split.
  { unfold assertions. rewrite Hhist, Hr. reflexivity. }
  split; [exact Hfinal|]. split.
  { rewrite Hfinal. reflexivity. }
  unfold trace. rewrite loop_report.
  - cbn [snd]. rewrite Hfinal. vm_compute. reflexivity.
  - cbn [map]. rewrite exec_run_cons, H0, map_app. cbn [map]. exact Hr'.
Qed.

Lemma end_to_end_scenario_witness :
  let ts := [6000; 3000; 3000; 3000; 3000; 3001; 3000; 3000; 3000; 6001] in
  ready_history (map Edge ts) initial = repeat false 9 ++ [true]
  /\ assertions (map Edge ts) initial = 1%nat
  /\ channel (exec (run (map Edge ts)) initial) =
       [1500; 1500; 1500; 1500; 1500; 1500; 1500; 1500; 3000]
  /\ sum_list (channel (exec (run (map Edge ts)) initial)) = 15000
  /\ serial_text (trace loop (exec (run (map Edge ts)) initial)) =
       String.append
         "1: 1500; 2: 1500; 3: 1500; 4: 1500; 5: 1500; 6: 1500; 7: 1500; 8: 1500; Pause: 3000; Total = 15000"
         crlf.
Proof.
  apply (end_to_end_scenario initial
           [6000; 3000; 3000; 3000; 3000; 3001; 3000; 3000; 3000; 6001]);
    reflexivity.
Defined.

(** C8: entered with the flag set, a pass of [loop] prints exactly this, in
    this order: for each of the indices 0..7 the channel number (index + 1),
    a colon and blank, the array element, a semicolon and blank; then the
    pause [channel[8]]; then the total, which is the sum of the nine array
    elements reduced modulo 2^16; the only end of line is the one after the
    total. *)
Theorem report_line (s : state) (v1 v2 v3 v4 v5 v6 v7 v8 gap : Z) :
  channel s = [v1; v2; v3; v4; v5; v6; v7; v8; gap] ->
  readyToShow s = true ->
  let total := sum_list (channel s) mod 65536 in
  serial_calls (trace loop s) =
    [Serial_print_int 1; Serial_print_str ": "; Serial_print_uint v1; Serial_print_str "; ";
     Serial_print_int 2; Serial_print_str ": "; Serial_print_uint v2; Serial_print_str "; ";
     Serial_print_int 3; Serial_print_str ": "; Serial_print_uint v3; Serial_print_str "; ";
     Serial_print_int 4; Serial_print_str ": "; Serial_print_uint v4; Serial_print_str "; ";
     Serial_print_int 5; Serial_print_str ": "; Serial_print_uint v5; Serial_print_str "; ";
     Serial_print_int 6; Serial_print_str ": "; Serial_print_uint v6; Serial_print_str "; ";
     Serial_print_int 7; Serial_print_str ": "; Serial_print_uint v7; Serial_print_str "; ";
     Serial_print_int 8; Serial_print_str ": "; Serial_print_uint v8; Serial_print_str "; ";
     Serial_print_str "Pause: "; Serial_print_uint gap;
     Serial_print_str "; Total = "; Serial_println_uint total]
  /\ total = (v1 + v2 + v3 + v4 + v5 + v6 + v7 + v8 + gap) mod 65536
  /\ serial_text (trace loop s) =
       String.concat ""
         ["1: "; printNumber v1; "; "; "2: "; printNumber v2; "; ";
          "3: "; printNumber v3; "; "; "4: "; printNumber v4; "; ";
          "5: "; printNumber v5; "; "; "6: "; printNumber v6; "; ";
          "7: "; printNumber v7; "; "; "8: "; printNumber v8; "; ";
          "Pause: "; printNumber gap; "; Total = "; printNumber total; crlf]%string.
Proof.
  intros Hch Hr total.
  assert (Htotal : accumulate (channel s) (seqZ 0 8) (subscript (channel s) 8)
                   = total).
  { subst total. rewrite Hch.
    change (accumulate _ _ _) with
      (to_uint (to_uint (to_uint (to_uint (to_uint (to_uint (to_uint (to_uint
         (gap + v1) + v2) + v3) + v4) + v5) + v6) + v7) + v8)).
    unfold to_uint, sum_list. cbn [fold_right].
    repeat (rewrite Zplus_mod_idemp_l; rewrite <- ?Z.add_assoc).
    f_equal. ring. }
  assert (Hsum : total = (v1 + v2 + v3 + v4 + v5 + v6 + v7 + v8 + gap) mod 65536).
  { subst total. rewrite Hch. unfold sum_list. cbn [fold_right].
    f_equal. ring. }
  clearbody total.
  assert (Hcalls : serial_calls (trace loop s) =
    [Serial_print_int 1; Serial_print_str ": "; Serial_print_uint v1; Serial_print_str "; ";
     Serial_print_int 2; Serial_print_str ": "; Serial_print_uint v2; Serial_print_str "; ";
     Serial_print_int 3; Serial_print_str ": "; Serial_print_uint v3; Serial_print_str "; ";
     Serial_print_int 4; Serial_print_str ": "; Serial_print_uint v4; Serial_print_str "; ";
     Serial_print_int 5; Serial_print_str ": "; Serial_print_uint v5; Serial_print_str "; ";
     Serial_print_int 6; Serial_print_str ": "; Serial_print_uint v6; Serial_print_str "; ";
     Serial_print_int 7; Serial_print_str ": "; Serial_print_uint v7; Serial_print_str "; ";
     Serial_print_int 8; Serial_print_str ": "; Serial_print_uint v8; Serial_print_str "; ";
     Serial_print_str "Pause: "; Serial_print_uint gap;
     Serial_print_str "; Total = "; Serial_println_uint total]).
  { unfold trace. rewrite loop_report by assumption. cbn [snd].
    rewrite Htotal, Hch. reflexivity. }
  split; [exact Hcalls|]. split; [exact Hsum|].
  rewrite serial_text_calls, Hcalls.
  cbv beta iota delta [serial_text fold_right text_of Z.ltb Z.compare].
  change (printNumber 1) with "1"%string. change (printNumber 2) with "2"%string.
  change (printNumber 3) with "3"%string. change (printNumber 4) with "4"%string.
  change (printNumber 5) with "5"%string. change (printNumber 6) with "6"%string.
  change (printNumber 7) with "7"%string. change (printNumber 8) with "8"%string.
  cbn [String.append String.concat]. rewrite append_empty_r. reflexivity.
Qed.

Lemma report_line_witness :
  let s := mkState [1000; 1250; 1500; 1750; 2000; 1100; 1900; 1500; 60000] true 0 0 0 in
  serial_text (trace loop s) =
    String.append
      "1: 1000; 2: 1250; 3: 1500; 4: 1750; 5: 2000; 6: 1100; 7: 1900; 8: 1500; Pause: 60000; Total = 6464"
      crlf.
Proof.
  pose proof (report_line
                (mkState [1000; 1250; 1500; 1750; 2000; 1100; 1900; 1500; 60000]
                         true 0 0 0)
                1000 1250 1500 1750 2000 1100 1900 1500 60000
                eq_refl eq_refl) as (_ & _ & Htext).
  exact Htext.
Defined.

(** C3 (as stated) fails: a tenth edge without a long pause in between
    moves [currentChannel] to 9. *)
Lemma index_range_refuted :
  ~ (forall ins : list input,
       -1 <= currentChannel (exec (run ins) initial) <= 8).
Proof.
  intros H. specialize (H (Edge 6000 :: repeat (Edge 3000) 9)).
  vm_compute in H. destruct H as [_ H]. apply H. reflexivity.
Qed.

(** C3 (amended): [currentChannel] is -1 or a count of channel pulses that
    is not capped at 8.  From the initial state, every sequence of edges and
    passes of [loop], of any length, along which the increment of line 80
    does not overflow keeps it between -1 and the number of short intervals
    since the last long pause; no sequence in which at most 32767 short
    intervals follow one another without a long pause overflows; and an
    unsynchronized decoder that sees a long pause and then [k] short
    intervals ([k] up to 32767) stands at exactly [k]. *)
Theorem index_counts_pulses (ins : list input) (s : state) (g : Z) (ts : list Z) :
  readyToShow s = false -> currentChannel s = -1 ->
  2500 < elapsed_us g ->
  Forall (fun t => elapsed_us t <= 2500) ts ->
  Z.of_nat (length ts) <= 32767 ->
  (no_overflow ins initial = true ->
   -1 <= currentChannel (exec (run ins) initial) <= pulse_train 0 (edges ins))
  /\ (trains_fit 0 (edges ins) = true -> no_overflow ins initial = true)
  /\ currentChannel (exec (run (Edge g :: map Edge ts)) s) = Z.of_nat (length ts).
Proof.
  intros Hr Hc Hg Hts Hlen.
  assert (Hinit : index_fits initial 0).
  { unfold index_fits. cbn [currentChannel readyToShow initial].
    repeat split; try lia; try discriminate. }
  split; [|split].
  - intros Hno.
    destruct (run_index_within ins initial 0) as (_ & H & _);
      [exact Hinit | cbn [currentChannel initial]; lia | assumption | exact H].
  - intros Hfit. exact (trains_fit_no_overflow ins initial 0 Hinit Hfit).
  - rewrite exec_run_cons.
    assert (H0 : exec (step (Edge g)) s = mkState (channel s) false 0 0 (elapsed_us g))
      by (unfold exec; now rewrite edge_first_gap by assumption).
    rewrite H0.
    destruct (synchronized_counts ts (mkState (channel s) false 0 0 (elapsed_us g)))
      as [_ H]; [reflexivity | cbn; lia | cbn [currentChannel]; lia | assumption |].
    rewrite H. cbn [currentChannel]. lia.
Qed.

Lemma index_counts_pulses_witness :
  let ins := Edge 6000 :: repeat (Edge 3000) 9 ++ [Pass; Edge 6000; Pass; Edge 2000] in
  -1 <= currentChannel (exec (run ins) initial) <= pulse_train 0 (edges ins)
  /\ no_overflow ins initial = true
  /\ currentChannel (exec (run (Edge 6000 :: map Edge (repeat 3000 9))) initial) = 9.
Proof.
  destruct (index_counts_pulses
              (Edge 6000 :: repeat (Edge 3000) 9 ++ [Pass; Edge 6000; Pass; Edge 2000])
              initial 6000 (repeat 3000 9))
    as (Hbound & Hfit & Hexact);
    try reflexivity.
  - repeat constructor; vm_compute; discriminate.
  - vm_compute. discriminate.
  - split; [exact (Hbound eq_refl)|]. split; [exact (Hfit eq_refl) | exact Hexact].
Defined.

(** C4 (as stated) fails: in [InFrame(8)] a further channel interval moves
    [currentChannel] to 9. *)
Lemma ninth_pulse_keeps_index_refuted :
  ~ (forall (s : state) (tcnt : Z),
       currentChannel s = 8 -> readyToShow s = false ->
       elapsed_us tcnt <= 2500 ->
       channel (exec (step (Edge tcnt)) s) = channel s
       /\ currentChannel (exec (step (Edge tcnt)) s) = 8).
Proof.
  intros H.
  destruct (H (mkState (repeat 1500 9) false 8 0 1500) 3000) as [_ Hc];
    [reflexivity | reflexivity | vm_compute; discriminate |].
  vm_compute in Hc. discriminate Hc.
Qed.

(** C4 (amended): in [InFrame(8)] with the flag clear, an edge after at most
    2500 microseconds stores nothing -- the array is unchanged and the flag
    stays clear -- but it is still counted: [currentChannel] becomes 9. *)
Theorem surplus_pulse_counted_not_stored (s : state) (tcnt : Z) :
  currentChannel s = 8 -> readyToShow s = false -> elapsed_us tcnt <= 2500 ->
  channel (exec (step (Edge tcnt)) s) = channel s
  /\ stores (trace (step (Edge tcnt)) s) = []
  /\ readyToShow (exec (step (Edge tcnt)) s) = false
  /\ currentChannel (exec (step (Edge tcnt)) s) = 9.
Proof.
  intros Hc Hr He. unfold exec, trace.
  rewrite edge_pulse_surplus by (assumption || lia).
  cbn [fst snd channel readyToShow currentChannel]. rewrite Hc.
  repeat split.
Qed.

Lemma surplus_pulse_counted_not_stored_witness :
  let s := mkState (repeat 1500 9) false 8 0 1500 in
  channel (exec (step (Edge 3000)) s) = channel s
  /\ stores (trace (step (Edge 3000)) s) = []
  /\ readyToShow (exec (step (Edge 3000)) s) = false
  /\ currentChannel (exec (step (Edge 3000)) s) = 9.
Proof.
  apply (surplus_pulse_counted_not_stored
           (mkState (repeat 1500 9) false 8 0 1500) 3000);
    [reflexivity | reflexivity | vm_compute; discriminate].
Defined.

(** C10 fails on the code: [currentChannel] is incremented on every short
    interval, also past 8, and nothing stops it at the top of [int].  After
    one long pause and 32768 short intervals it has wrapped to -32768, which
    passes both guards ([!= -1] and [< 8]); the next edge stores through
    [channel[-32768]], below the array. *)
Theorem store_below_array :
  currentChannel (exec (run (runaway 32768)) initial) = -32768
  /\ trace (step (Edge 3000)) (exec (run (runaway 32768)) initial) =
       [Store (-32768) 1500]
  /\ ~ Forall (fun a => in_bounds a = true)
         (accesses (trace (run (runaway 32769)) initial)).
Proof.
  destruct (runaway_counts 32767) as [Hr Hc]; [lia|].
  destruct (wrap_then_store _ Hr Hc) as [Hw Hs].
  pose proof (runaway_snoc 32767 ltac:(lia)) as E1.
  pose proof (runaway_snoc 32768 ltac:(lia)) as E2.
  change (32767 + 1) with 32768 in E1. change (32768 + 1) with 32769 in E2.
  rewrite E2, E1. rewrite exec_run_snoc, trace_run_snoc, exec_run_snoc.
  split; [exact Hw|]. split; [exact Hs|].
  unfold accesses. rewrite omap_app, Hs. intros Hall.
  apply Forall_app in Hall as [_ Hall].
  inversion Hall as [|? ? Hb _]. discriminate Hb.
Qed.

(** * Further properties of the sketch *)

(** ** Start-up *)

(** Whatever the timer's control registers held before, [setup] leaves
    [TCCR1A] at zero and [TCCR1B] with the clock-select bit [CS11] set and
    no other bit; it configures pin 2 as input, attaches [read_ppm] to
    interrupt 0 on rising edges and opens the serial link. *)
Theorem setup_programs_timer (CS11 : Z) (t : timer1) :
  0 <= CS11 < 8 ->
  TCCR1A (fst (setup CS11 t)) = 0
  /\ TCCR1B (fst (setup CS11 t)) = 2 ^ CS11
  /\ (forall k : Z, Z.testbit (TCCR1B (fst (setup CS11 t))) k = (CS11 =? k))
  /\ snd (setup CS11 t) =
       [Call_pinMode 2 INPUT; Call_attachInterrupt 0 read_ppm RISING;
        Call_Serial_begin 115200].
Proof.
  intros H. cbn [setup setupPPM fst snd TCCR1A TCCR1B app].
  assert (Hb : to_uint8 (Z.lor 0 (Z.shiftl 1 CS11)) = 2 ^ CS11).
  { rewrite Z.lor_0_l, Z.shiftl_1_l. unfold to_uint8.
    apply Z.mod_small. split; [apply Z.pow_nonneg; lia|].
    change 256 with (2 ^ 8). apply Z.pow_lt_mono_r; lia. }
  rewrite Hb. repeat split.
  intros k. apply Z.pow2_bits_eqb. lia.
Qed.

Lemma setup_programs_timer_witness :
  TCCR1A (fst (setup 1 (mkTimer1 1 3))) = 0
  /\ TCCR1B (fst (setup 1 (mkTimer1 1 3))) = 2 ^ 1
  /\ (forall k : Z, Z.testbit (TCCR1B (fst (setup 1 (mkTimer1 1 3)))) k = (1 =? k))
  /\ snd (setup 1 (mkTimer1 1 3)) =
       [Call_pinMode 2 INPUT; Call_attachInterrupt 0 read_ppm RISING;
        Call_Serial_begin 115200].
Proof.
  apply (setup_programs_timer 1 (mkTimer1 1 3)). lia.
Defined.

(** ** The main loop with nothing to report *)

(** A pass of [loop] with the flag clear prints nothing, does not wait and
    changes nothing; all it does is read [channel[8]] into [total]. *)
Theorem idle_pass_is_silent (s : state) :
  readyToShow s = false ->
  exec loop s = s
  /\ serial_calls (trace loop s) = []
  /\ serial_text (trace loop s) = EmptyString
  /\ trace loop s = [Fetch 8].
Proof.
  intros Hr. unfold exec, trace. rewrite loop_idle by assumption.
  repeat split.
Qed.

Lemma idle_pass_is_silent_witness :
  exec loop initial = initial
  /\ serial_calls (trace loop initial) = []
  /\ serial_text (trace loop initial) = EmptyString
  /\ trace loop initial = [Fetch 8].
Proof.
  apply (idle_pass_is_silent initial). reflexivity.
Defined.

(** ** The timer *)

(** Every edge, used or dropped, restarts the measurement: [TCNT1] is back
    at zero and [pauseDuration] holds the halved count, a value between 0
    and 32767. *)
Theorem every_edge_restarts_timer (s : state) (tcnt : Z) :
  TCNT1 (exec (step (Edge tcnt)) s) = 0
  /\ pauseDuration (exec (step (Edge tcnt)) s) = elapsed_us tcnt
  /\ 0 <= pauseDuration (exec (step (Edge tcnt)) s) < 32768.
Proof.
  assert (H : TCNT1 (exec (step (Edge tcnt)) s) = 0
              /\ pauseDuration (exec (step (Edge tcnt)) s) = elapsed_us tcnt).
  { unfold exec. destruct (readyToShow s) eqn:Hr.
    { rewrite edge_blocked by assumption. now split. }
    destruct (Z.ltb_spec 2500 (elapsed_us tcnt)) as [He|He];
      destruct (Z.eq_dec (currentChannel s) (-1)) as [Hc|Hc].
    - rewrite edge_first_gap by assumption. now split.
    - rewrite edge_gap by assumption. now split.
    - rewrite edge_pulse_unsynchronized by assumption. now split.
    - destruct (Z.lt_ge_cases (currentChannel s) 8) as [H8|H8].
      + rewrite edge_pulse_counted by assumption. now split.
      + rewrite edge_pulse_surplus by assumption. now split. }
  destruct H as [Ht Hp]. rewrite Hp.
  repeat split; try assumption; apply elapsed_us_range.
Qed.

(** ** Edges the decoder does not use *)

(** While the flag is set the decoder drops any number of edges: the array,
    the flag and [currentChannel] stay as they are, the flag is never
    raised again and no element of the array is touched, until [loop] has
    reported the frame. *)
Theorem backlog_is_dropped (tcnts : list Z) (s : state) :
  readyToShow s = true ->
  channel (exec (run (map Edge tcnts)) s) = channel s
  /\ readyToShow (exec (run (map Edge tcnts)) s) = true
  /\ currentChannel (exec (run (map Edge tcnts)) s) = currentChannel s
  /\ assertions (map Edge tcnts) s = 0%nat
  /\ accesses (trace (run (map Edge tcnts)) s) = [].
Proof.
  revert s. induction tcnts as [|t tcnts IH]; intros s Hr.
  - unfold assertions. rewrite Hr. repeat split; assumption.
  - cbn [map]. rewrite exec_run_cons, trace_run_cons.
    set (s1 := mkState (channel s) true (currentChannel s) 0 (elapsed_us t)).
    assert (Hstep : step (Edge t) s = (tt, s1, []))
      by (apply edge_blocked; assumption).
    assert (Hexec : exec (step (Edge t)) s = s1) by (unfold exec; now rewrite Hstep).
    assert (Htr : trace (step (Edge t)) s = []) by (unfold trace; now rewrite Hstep).
    unfold assertions in *. cbn [ready_history]. rewrite Hexec, Htr.
    cbn [app].
    destruct (IH s1 eq_refl) as (Hch & Hr' & Hc & Ha & Ht).
    rewrite Hch, Hr', Hc, Ht, Hr. cbn [readyToShow s1] in Ha.
    cbn [rising readyToShow negb andb app s1 Nat.add]. rewrite Ha.
    repeat split.
Qed.

Lemma backlog_is_dropped_witness :
  let s := mkState [1500; 1400; 1300; 1200; 1100; 1000; 1900; 2000; 7000] true 0 0 7000 in
  channel (exec (run (map Edge [3000; 9000; 2400])) s) = channel s
  /\ readyToShow (exec (run (map Edge [3000; 9000; 2400])) s) = true
  /\ currentChannel (exec (run (map Edge [3000; 9000; 2400])) s) = currentChannel s
  /\ assertions (map Edge [3000; 9000; 2400]) s = 0%nat
  /\ accesses (trace (run (map Edge [3000; 9000; 2400])) s) = [].
Proof.
  apply (backlog_is_dropped [3000; 9000; 2400]
           (mkState [1500; 1400; 1300; 1200; 1100; 1000; 1900; 2000; 7000]
                    true 0 0 7000)).
  reflexivity.
Defined.

(** An unsynchronized decoder ignores any number of short intervals: it
    stays unsynchronized, the flag stays clear and nothing is stored.  Only
    a pause of more than 2500 microseconds gets it going. *)
Theorem unsynchronized_waits_for_gap (tcnts : list Z) (s : state) :
  readyToShow s = false -> currentChannel s = -1 ->
  Forall (fun t => elapsed_us t <= 2500) tcnts ->
  channel (exec (run (map Edge tcnts)) s) = channel s
  /\ readyToShow (exec (run (map Edge tcnts)) s) = false
  /\ currentChannel (exec (run (map Edge tcnts)) s) = -1
  /\ accesses (trace (run (map Edge tcnts)) s) = [].
Proof.
  revert s. induction tcnts as [|t tcnts IH]; intros s Hr Hc Hts.
  - repeat split; assumption.
  - inversion Hts as [|? ? Ht Hts']; subst. cbn beta in Ht.
    cbn [map]. rewrite exec_run_cons, trace_run_cons.
    set (s1 := mkState (channel s) false (-1) 0 (elapsed_us t)).
    assert (Hstep : step (Edge t) s = (tt, s1, []))
      by (apply edge_pulse_unsynchronized; assumption).
    assert (Hexec : exec (step (Edge t)) s = s1) by (unfold exec; now rewrite Hstep).
    assert (Htr : trace (step (Edge t)) s = []) by (unfold trace; now rewrite Hstep).
    rewrite Hexec, Htr. cbn [app].
    destruct (IH s1 eq_refl eq_refl Hts') as (Hch & Hr' & Hc' & Ht').
    rewrite Hch, Hr', Hc', Ht'. repeat split.
Qed.

Lemma unsynchronized_waits_for_gap_witness :
  channel (exec (run (map Edge [3000; 5000; 2000])) initial) = channel initial
  /\ readyToShow (exec (run (map Edge [3000; 5000; 2000])) initial) = false
  /\ currentChannel (exec (run (map Edge [3000; 5000; 2000])) initial) = -1
  /\ accesses (trace (run (map Edge [3000; 5000; 2000])) initial) = [].
Proof.
  apply (unsynchronized_waits_for_gap [3000; 5000; 2000] initial);
    try reflexivity.
  repeat constructor; vm_compute; discriminate.
Defined.

(** ** Frames of the wrong length *)

(** A long pause closes the frame wherever the synchronized decoder is,
    after fewer or more than eight channel intervals as well: the pause goes
    to [channel[8]], the flag is raised, [currentChannel] restarts at 0 and
    the eight channel slots keep what they held. *)
Theorem gap_closes_frame_anywhere (s : state) (tcnt : Z) :
  well_formed s -> readyToShow s = false -> currentChannel s <> -1 ->
  2500 < elapsed_us tcnt ->
  readyToShow (exec (step (Edge tcnt)) s) = true
  /\ currentChannel (exec (step (Edge tcnt)) s) = 0
  /\ channel (exec (step (Edge tcnt)) s) =
       take 8 (channel s) ++ [elapsed_us tcnt]
  /\ trace (step (Edge tcnt)) s = [Store 8 (elapsed_us tcnt)].
Proof.
  intros Hwf Hr Hc He. unfold exec, trace. rewrite edge_gap by assumption.
  cbn [fst snd readyToShow currentChannel channel]. repeat split.
  change (assign ?l 8 ?v) with (<[8%nat := v]> l).
  unfold well_formed in Hwf.
  rewrite <- (take_drop 8 (channel s)) at 1.
  rewrite insert_app_r_alt by (rewrite length_take; lia).
  rewrite length_take, Hwf. cbn [Nat.min Nat.sub].
  assert (Hd : length (drop 8 (channel s)) = 1%nat)
    by (rewrite length_drop, Hwf; reflexivity).
  destruct (drop 8 (channel s)) as [|x [|y rest]]; try discriminate Hd.
  reflexivity.
Qed.

Lemma gap_closes_frame_anywhere_witness :
  let s := mkState [1500; 1400; 1300; 1200; 1100; 1000; 1900; 2000; 7000] false 3 0 0 in
  readyToShow (exec (step (Edge 8000)) s) = true
  /\ currentChannel (exec (step (Edge 8000)) s) = 0
  /\ channel (exec (step (Edge 8000)) s) =
       [1500; 1400; 1300; 1200; 1100; 1000; 1900; 2000; 4000]
  /\ trace (step (Edge 8000)) s = [Store 8 4000].
Proof.
  apply (gap_closes_frame_anywhere
           (mkState [1500; 1400; 1300; 1200; 1100; 1000; 1900; 2000; 7000]
                    false 3 0 0) 8000);
    try reflexivity; vm_compute; discriminate.
Defined.

(** The stores behind [pulses_fill]: one per interval, into consecutive
    slots. *)
Lemma pulses_trace (ts : list Z) :
  forall (s : state) (n : nat),
    readyToShow s = false ->
    currentChannel s = Z.of_nat n ->
    (n + length ts <= 8)%nat ->
    Forall (fun t => elapsed_us t <= 2500) ts ->
    trace (run (map Edge ts)) s =
      zip_with Store (map Z.of_nat (seq n (length ts))) (map elapsed_us ts).
Proof.
  induction ts as [|t ts IH]; intros s n Hr Hc Hn Hts; [reflexivity|].
  inversion Hts as [|? ? Ht Hts']; subst. cbn beta in Ht. cbn [length] in Hn.
  cbn [map]. rewrite trace_run_cons.
  assert (Hstep : step (Edge t) s =
            (tt,
             mkState (assign (channel s) (Z.of_nat n) (elapsed_us t)) false
                     (Z.of_nat (S n)) 0 (elapsed_us t),
             [Store (Z.of_nat n) (elapsed_us t)])).
  { rewrite edge_pulse_counted by (assumption || lia).
    rewrite Hc, to_int_small by lia. do 3 f_equal. lia. }
  unfold exec, trace at 1. rewrite Hstep. cbn [fst snd].
  rewrite (IH _ (S n)); [reflexivity | reflexivity | reflexivity | lia | assumption].
Qed.

Lemma stores_zip_with (idx vs : list Z) :
  length idx = length vs -> stores (zip_with Store idx vs) = idx.
Proof.
  revert vs. induction idx as [|i idx IH]; intros [|v vs] Hlen;
    try discriminate Hlen; [reflexivity|].
  cbn [zip_with]. change (stores (Store i v :: ?t)) with (i :: stores t).
  f_equal. apply IH. now injection Hlen.
Qed.

Lemma assign_pause (ch : list Z) (v : Z) :
  length ch = 9%nat -> assign ch 8 v = take 8 ch ++ [v].
Proof.
  intros Hlen. change (assign ch 8 v) with (<[8%nat := v]> ch).
  rewrite <- (take_drop 8 ch) at 1.
  rewrite insert_app_r_alt by (rewrite length_take; lia).
  rewrite length_take, Hlen. cbn [Nat.min Nat.sub].
  assert (Hd : length (drop 8 ch) = 1%nat)
    by (rewrite length_drop, Hlen; reflexivity).
  destruct (drop 8 ch) as [|x [|y rest]]; try discriminate Hd.
  reflexivity.
Qed.

(** Short intervals beyond the eighth channel are counted and nothing else. *)
Lemma surplus_ignored (ts : list Z) :
  forall s : state,
    readyToShow s = false -> 8 <= currentChannel s ->
    currentChannel s + Z.of_nat (length ts) <= 32767 ->
    Forall (fun t => elapsed_us t <= 2500) ts ->
    channel (exec (run (map Edge ts)) s) = channel s
    /\ readyToShow (exec (run (map Edge ts)) s) = false
    /\ currentChannel (exec (run (map Edge ts)) s) =
         currentChannel s + Z.of_nat (length ts)
    /\ ready_history (map Edge ts) s = repeat false (length ts)
    /\ trace (run (map Edge ts)) s = [].
Proof.
  induction ts as [|t ts IH]; intros s Hr Hc Hn Hts.
  - cbn [length map] in *. change (exec (run []) s) with s.
    repeat split; try assumption. lia.
  - inversion Hts as [|? ? Ht Hts']; subst. cbn beta in Ht. cbn [length] in Hn.
    cbn [map ready_history]. rewrite exec_run_cons, trace_run_cons.
    set (s1 := mkState (channel s) false (currentChannel s + 1) 0 (elapsed_us t)).
    assert (Hstep : step (Edge t) s = (tt, s1, [])).
    { rewrite edge_pulse_surplus by (assumption || lia).
      rewrite to_int_small by lia. reflexivity. }
    assert (Hexec : exec (step (Edge t)) s = s1) by (unfold exec; now rewrite Hstep).
    assert (Htr : trace (step (Edge t)) s = []) by (unfold trace; now rewrite Hstep).
    rewrite Hexec, Htr. cbn [app].
    destruct (IH s1) as (Hch & Hr' & Hc' & Hh & Ht');
      [reflexivity | cbn [s1 currentChannel]; lia
      | cbn [s1 currentChannel]; lia | assumption |].
    rewrite Hch, Hr', Hc', Hh, Ht'. cbn [s1 channel readyToShow currentChannel].
    cbn [length repeat]. repeat split. lia.
Qed.

(** A frame cut short: from [InFrame(n)], [k] channel intervals with
    [n + k <= 8] and then a long pause.  The intervals are stored in
    increasing slot order from slot [n] on, the pause goes to slot 8 and the
    flag is raised on the last edge; the slots before [n] and from [n + k]
    up to 7 still hold what an earlier frame left there. *)
Theorem short_frame_keeps_stale_channels (s : state) (n : nat) (ts : list Z) (g : Z) :
  well_formed s -> readyToShow s = false -> currentChannel s = Z.of_nat n ->
  (n + length ts <= 8)%nat ->
  Forall (fun t => elapsed_us t <= 2500) ts ->
  2500 < elapsed_us g ->
  channel (exec (run (map Edge ts ++ [Edge g])) s) =
    take n (channel s) ++ map elapsed_us ts
    ++ drop (n + length ts) (take 8 (channel s)) ++ [elapsed_us g]
  /\ readyToShow (exec (run (map Edge ts ++ [Edge g])) s) = true
  /\ currentChannel (exec (run (map Edge ts ++ [Edge g])) s) = 0
  /\ ready_history (map Edge ts ++ [Edge g]) s =
       repeat false (length ts) ++ [true]
  /\ stores (trace (run (map Edge ts ++ [Edge g])) s) =
       map Z.of_nat (seq n (length ts)) ++ [8].
Proof.
  intros Hwf Hr Hc Hn Hts Hg. unfold well_formed in Hwf.
  destruct (pulses_fill ts s n) as (Hch & Hr' & Hc' & Hh);
    [assumption | assumption | lia | lia | assumption |].
  cbn zeta in *.
  pose proof (pulses_trace ts s n Hr Hc Hn Hts) as Htr.
  rewrite exec_run_snoc, ready_history_app, trace_run_snoc, Hh, Htr.
  set (sk := exec (run (map Edge ts)) s) in *.
  assert (Hlen : length (channel sk) = 9%nat).
  { subst sk. apply (run_well_formed _ s). exact Hwf. }
  assert (Hstep : step (Edge g) sk =
            (tt, mkState (assign (channel sk) 8 (elapsed_us g)) true 0 0
                         (elapsed_us g),
             [Store 8 (elapsed_us g)])).
  { apply edge_gap; [assumption | rewrite Hc'; lia | assumption]. }
  cbn [ready_history]. unfold exec, trace. rewrite Hstep.
  cbn [fst snd channel readyToShow currentChannel].
  rewrite assign_pause by assumption. repeat split.
  - rewrite Hch.
    assert (Htake : take 8 (take n (channel s) ++ map elapsed_us ts
                            ++ drop (n + length ts) (channel s)) =
                    take n (channel s) ++ map elapsed_us ts
                    ++ drop (n + length ts) (take 8 (channel s))).
    { rewrite take_app_ge by (rewrite length_take; lia).
      rewrite length_take, Nat.min_l by lia.
      rewrite take_app_ge by (rewrite length_map; lia).
      rewrite length_map. f_equal. f_equal.
      rewrite take_drop_commute. do 2 f_equal. lia. }
    rewrite Htake, <- !app_assoc. reflexivity.
  - unfold stores. rewrite omap_app. fold (stores (zip_with Store
      (map Z.of_nat (seq n (length ts))) (map elapsed_us ts))).
    rewrite stores_zip_with by (now rewrite !length_map, length_seq).
    reflexivity.
Qed.

Lemma short_frame_keeps_stale_channels_witness :
  let s := mkState [11; 12; 13; 14; 15; 16; 17; 18; 19] false 2 0 0 in
  let ins := map Edge [3000; 2400; 4000] ++ [Edge 9000] in
  channel (exec (run ins) s) = [11; 12; 1500; 1200; 2000; 16; 17; 18; 4500]
  /\ readyToShow (exec (run ins) s) = true
  /\ currentChannel (exec (run ins) s) = 0
  /\ ready_history ins s = [false; false; false; true]
  /\ stores (trace (run ins) s) = [2; 3; 4; 8].
Proof.
  apply (short_frame_keeps_stale_channels
           (mkState [11; 12; 13; 14; 15; 16; 17; 18; 19] false 2 0 0)
           2 [3000; 2400; 4000] 9000);
    try reflexivity.
  - cbn [length]. lia.
  - repeat constructor; vm_compute; discriminate.
Defined.

(** A frame with too many channels: from [InFrame(0)], eight channel
    intervals, then [m] more short ones, then the long pause.  The first
    eight are the ones reported; the surplus is dropped without a store, and
    the flag is raised by the pause only. *)
Theorem long_frame_keeps_first_eight (s : state) (ts extra : list Z) (g : Z) :
  well_formed s -> readyToShow s = false -> currentChannel s = 0 ->
  length ts = 8%nat ->
  Z.of_nat (length extra) <= 32759 ->
  Forall (fun t => elapsed_us t <= 2500) (ts ++ extra) ->
  2500 < elapsed_us g ->
  channel (exec (run (map Edge (ts ++ extra) ++ [Edge g])) s) =
    map elapsed_us ts ++ [elapsed_us g]
  /\ readyToShow (exec (run (map Edge (ts ++ extra) ++ [Edge g])) s) = true
  /\ currentChannel (exec (run (map Edge (ts ++ extra) ++ [Edge g])) s) = 0
  /\ ready_history (map Edge (ts ++ extra) ++ [Edge g]) s =
       repeat false (8 + length extra) ++ [true]
  /\ stores (trace (run (map Edge (ts ++ extra) ++ [Edge g])) s) =
       [0; 1; 2; 3; 4; 5; 6; 7; 8].
Proof.
  intros Hwf Hr Hc Hlen Hm Hall Hg. unfold well_formed in Hwf.
  apply Forall_app in Hall as [Hts Hex].
  destruct (pulses_fill ts s 0) as (Hch & Hr8 & Hc8 & Hh8);
    [assumption | assumption | lia | lia | assumption |].
  cbn zeta in *.
  pose proof (pulses_trace ts s 0 Hr Hc ltac:(lia) Hts) as Htr8.
  rewrite Hlen in *. change (take 0 (channel s)) with (@nil Z) in Hch.
  cbn [app Nat.add] in Hch, Hc8.
  set (s8 := exec (run (map Edge ts)) s) in *.
  destruct (surplus_ignored extra s8) as (Hch' & Hr' & Hc' & Hh' & Htr');
    [assumption | rewrite Hc8; cbn; lia | rewrite Hc8; cbn; lia | assumption |].
  set (sm := exec (run (map Edge extra)) s8) in *.
  assert (Hlen8 : length (channel sm) = 9%nat).
  { subst sm s8. apply run_well_formed, run_well_formed. exact Hwf. }
  assert (Hstep : step (Edge g) sm =
            (tt, mkState (assign (channel sm) 8 (elapsed_us g)) true 0 0
                         (elapsed_us g),
             [Store 8 (elapsed_us g)])).
  { apply edge_gap; [assumption | rewrite Hc', Hc8; cbn; lia | assumption]. }
  rewrite map_app, <- app_assoc.
  rewrite !exec_run_app, !ready_history_app, !trace_run_app.
  fold s8. fold sm. rewrite Hh8, Hh', Htr8, Htr'.
  assert (Hexec : exec (step (Edge g)) sm =
            mkState (assign (channel sm) 8 (elapsed_us g)) true 0 0 (elapsed_us g))
    by (unfold exec; now rewrite Hstep).
  assert (Htr : trace (step (Edge g)) sm = [Store 8 (elapsed_us g)])
    by (unfold trace; now rewrite Hstep).
  change (exec (run [Edge g]) sm) with (exec (step (Edge g)) sm).
  change (trace (run [Edge g]) sm) with (trace (step (Edge g)) sm ++ []).
  cbn [ready_history]. rewrite Hexec, Htr.
  cbn [channel readyToShow currentChannel].
  rewrite assign_pause by assumption. rewrite Hch', Hch.
  repeat split.
  - rewrite take_app_length' by (rewrite length_map; now rewrite Hlen).
    reflexivity.
  - unfold stores. rewrite !omap_app.
    fold (stores (zip_with Store (map Z.of_nat (seq 0 8)) (map elapsed_us ts))).
    rewrite stores_zip_with by (now rewrite !length_map, length_seq).
    reflexivity.
Qed.

Lemma long_frame_keeps_first_eight_witness :
  let s := mkState [7; 7; 7; 7; 7; 7; 7; 7; 7] false 0 0 0 in
  let ins :=
    map Edge ([2000; 2200; 2400; 2600; 3000; 3400; 3800; 4000] ++ [3000; 3200])
    ++ [Edge 9000] in
  channel (exec (run ins) s) =
    [1000; 1100; 1200; 1300; 1500; 1700; 1900; 2000; 4500]
  /\ readyToShow (exec (run ins) s) = true
  /\ currentChannel (exec (run ins) s) = 0
  /\ ready_history ins s = repeat false 10 ++ [true]
  /\ stores (trace (run ins) s) = [0; 1; 2; 3; 4; 5; 6; 7; 8].
Proof.
  apply (long_frame_keeps_first_eight
           (mkState [7; 7; 7; 7; 7; 7; 7; 7; 7] false 0 0 0)
           [2000; 2200; 2400; 2600; 3000; 3400; 3800; 4000] [3000; 3200] 9000);
    try reflexivity.
  - cbn [length]. lia.
  - repeat constructor; unfold elapsed_us; vm_compute; discriminate.
Defined.

(** ** What the interrupt routine leaves to the main loop *)

Lemma edge_trace_cases (s : state) (tcnt : Z) :
  trace (step (Edge tcnt)) s = []
  \/ trace (step (Edge tcnt)) s = [Store 8 (elapsed_us tcnt)]
  \/ trace (step (Edge tcnt)) s = [Store (currentChannel s) (elapsed_us tcnt)].
Proof.
  unfold trace. destruct (readyToShow s) eqn:Hr.
  { rewrite edge_blocked by assumption. now left. }
  destruct (Z.ltb_spec 2500 (elapsed_us tcnt)) as [He|He];
    destruct (Z.eq_dec (currentChannel s) (-1)) as [Hc|Hc].
  - rewrite edge_first_gap by assumption. now left.
  - rewrite edge_gap by assumption. right; now left.
  - rewrite edge_pulse_unsynchronized by assumption. now left.
  - destruct (Z.lt_ge_cases (currentChannel s) 8) as [H8|H8].
    + rewrite edge_pulse_counted by assumption. right; now right.
    + rewrite edge_pulse_surplus by assumption. now left.
Qed.

Lemma serial_calls_app (t1 t2 : list event) :
  serial_calls (t1 ++ t2) = serial_calls t1 ++ serial_calls t2.
Proof. unfold serial_calls. apply filter_app. Qed.

Lemma lines_app (t1 t2 : list event) :
  lines (t1 ++ t2) = (lines t1 + lines t2)%nat.
Proof. unfold lines. now rewrite filter_app, length_app. Qed.

Lemma edges_only_store_aux (tcnts : list Z) (s : state) :
  serial_calls (trace (run (map Edge tcnts)) s) = []
  /\ lines (trace (run (map Edge tcnts)) s) = 0%nat.
Proof.
  revert s. induction tcnts as [|t tcnts IH]; intros s; [now split|].
  cbn [map]. rewrite trace_run_cons.
  destruct (IH (exec (step (Edge t)) s)) as (Hs & Hl).
  rewrite serial_calls_app, lines_app, Hs, Hl.
  destruct (edge_trace_cases s t) as [H|[H|H]]; rewrite H; now split.
Qed.

(** The interrupt routine never prints, never waits and never reads the
    array: whatever edges arrive, in whatever state, all they leave in the
    trace is stores into [channel], at most one per edge. *)
Theorem edges_only_store (tcnts : list Z) (s : state) :
  serial_calls (trace (run (map Edge tcnts)) s) = []
  /\ lines (trace (run (map Edge tcnts)) s) = 0%nat
  /\ Forall (fun e => exists i v, e = Store i v) (trace (run (map Edge tcnts)) s)
  /\ (length (trace (run (map Edge tcnts)) s) <= length tcnts)%nat.
Proof.
  revert s. induction tcnts as [|t tcnts IH]; intros s.
  - repeat split; constructor.
  - cbn [map length]. rewrite trace_run_cons.
    destruct (IH (exec (step (Edge t)) s)) as (Hs & Hl & Hf & Hn).
    rewrite serial_calls_app, lines_app, Hs, Hl, length_app.
    destruct (edge_trace_cases s t) as [H|[H|H]]; rewrite H;
      (repeat split; [apply Forall_app; split; [repeat constructor; eauto | exact Hf]
                     | cbn [length]; lia]).
Qed.

Lemma serial_text_app (t1 t2 : list event) :
  serial_text (t1 ++ t2) = String.append (serial_text t1) (serial_text t2).
Proof.
  induction t1 as [|e t1 IH]; [reflexivity|].
  cbn [app]. unfold serial_text in *. cbn [fold_right]. rewrite IH.
  generalize (text_of e) as x. intros x.
  induction x as [|a x IHx]; [reflexivity|].
  cbn [String.append]. now rewrite IHx.
Qed.

(** One turn of the cycle: with a frame pending, a pass of [loop], then a
    long pause, eight channel intervals and the closing pause.  The serial
    line carries the pending frame, once; the pause after the report only
    re-synchronizes; and the array ends up holding the new frame with the
    flag set again. *)
Theorem report_then_next_frame (s : state) (g0 : Z) (ts : list Z) (g : Z) :
  well_formed s -> readyToShow s = true ->
  2500 < elapsed_us g0 ->
  length ts = 8%nat ->
  Forall (fun t => elapsed_us t <= 2500) ts ->
  2500 < elapsed_us g ->
  serial_text (trace (run (Pass :: Edge g0 :: map Edge ts ++ [Edge g])) s) =
    serial_text (trace loop s)
  /\ lines (trace (run (Pass :: Edge g0 :: map Edge ts ++ [Edge g])) s) = 1%nat
  /\ ready_history (Pass :: Edge g0 :: map Edge ts ++ [Edge g]) s =
       repeat false 10 ++ [true]
  /\ readyToShow (exec (run (Pass :: Edge g0 :: map Edge ts ++ [Edge g])) s) = true
  /\ channel (exec (run (Pass :: Edge g0 :: map Edge ts ++ [Edge g])) s) =
       map elapsed_us ts ++ [elapsed_us g].
Proof.
  intros Hwf Hr Hg0 Hlen Hts Hg.
  set (s1 := mkState (channel s) false (-1) (TCNT1 s) (pauseDuration s)).
  assert (H1 : exec (step Pass) s = s1).
  { unfold exec. cbn [step]. now rewrite loop_report by assumption. }
  set (s2 := mkState (channel s) false 0 0 (elapsed_us g0)).
  assert (H2 : exec (step (Edge g0)) s1 = s2).
  { unfold exec. now rewrite edge_first_gap by (reflexivity || assumption). }
  destruct (frame_run s2 ts g) as (Hh & Hr' & _ & Hch);
    [exact Hwf | reflexivity | reflexivity | assumption | assumption | assumption |].
  assert (Hedges : map Edge (g0 :: ts ++ [g]) = Edge g0 :: map Edge ts ++ [Edge g])
    by (cbn [map]; now rewrite map_app).
  destruct (edges_only_store_aux (g0 :: ts ++ [g]) s1) as (Hcalls & Hlines).
  rewrite Hedges in Hcalls, Hlines.
  assert (Et : trace (run (Pass :: Edge g0 :: map Edge ts ++ [Edge g])) s =
               trace loop s ++ trace (run (Edge g0 :: map Edge ts ++ [Edge g])) s1)
    by (rewrite trace_run_cons, H1; reflexivity).
  assert (Ee : exec (run (Pass :: Edge g0 :: map Edge ts ++ [Edge g])) s =
               exec (run (map Edge ts ++ [Edge g])) s2)
    by (rewrite !exec_run_cons, H1, H2; reflexivity).
  assert (Eh : ready_history (Pass :: Edge g0 :: map Edge ts ++ [Edge g]) s =
               false :: false :: ready_history (map Edge ts ++ [Edge g]) s2)
    by (cbn [ready_history]; rewrite H1, H2; reflexivity).
  rewrite Et, Ee, Eh, serial_text_app, lines_app, Hlines.
  rewrite (serial_text_calls (trace (run _) s1)), Hcalls.
  rewrite Hh, Hr', Hch.
  repeat split.
  - cbn [serial_calls serial_text fold_right]. apply append_empty_r.
  - unfold lines, trace. rewrite loop_report by assumption. reflexivity.
Qed.

Lemma report_then_next_frame_witness :
  let s := mkState [1500; 1400; 1300; 1200; 1100; 1000; 1900; 2000; 7000] true 0 0 7000 in
  let ins := Pass :: Edge 14000
             :: map Edge [2000; 2200; 2400; 2600; 3000; 3400; 3800; 4000]
             ++ [Edge 9000] in
  serial_text (trace (run ins) s) = serial_text (trace loop s)
  /\ lines (trace (run ins) s) = 1%nat
  /\ ready_history ins s = repeat false 10 ++ [true]
  /\ readyToShow (exec (run ins) s) = true
  /\ channel (exec (run ins) s) =
       [1000; 1100; 1200; 1300; 1500; 1700; 1900; 2000; 4500].
Proof.
  apply (report_then_next_frame
           (mkState [1500; 1400; 1300; 1200; 1100; 1000; 1900; 2000; 7000]
                    true 0 0 7000)
           14000 [2000; 2200; 2400; 2600; 3000; 3400; 3800; 4000] 9000);
    try reflexivity.
  repeat constructor; vm_compute; discriminate.
Defined.

(** ** Invariants of the running sketch *)

(** Induction over a run that stays below the overflow of [currentChannel]. *)
Lemma run_invariant (P : state -> Prop) :
  (forall (i : input) (s : state),
      -1 <= currentChannel s < 32767 -> P s -> P (exec (step i) s)) ->
  forall (ins : list input) (s : state) (k : Z),
    -1 <= currentChannel s <= k -> k + Z.of_nat (length ins) <= 32767 ->
    P s -> P (exec (run ins) s).
Proof.
  intros Hstep. induction ins as [|i ins IH]; intros s k Hc Hk HP.
  - exact HP.
  - cbn [length] in Hk. rewrite exec_run_cons.
    apply (IH _ (k + 1)); [apply step_index_bound; lia | lia |].
    apply Hstep; [lia | exact HP].
Qed.

Lemma step_plausible (i : input) (s : state) :
  -1 <= currentChannel s < 32767 -> plausible s -> plausible (exec (step i) s).
Proof.
  intros Hc (Hlen & Hlow & Hhigh). destruct i as [tcnt|]; unfold exec.
  - pose proof (elapsed_us_range tcnt) as Hrange.
    destruct (readyToShow s) eqn:Hr.
    { rewrite edge_blocked by assumption. now repeat split. }
    destruct (Z.ltb_spec 2500 (elapsed_us tcnt)) as [He|He];
      destruct (Z.eq_dec (currentChannel s) (-1)) as [Hc1|Hc1].
    + rewrite edge_first_gap by assumption. now repeat split.
    + rewrite edge_gap by assumption. cbn [fst snd]. unfold plausible.
      cbn [channel]. rewrite assign_pause by assumption.
      assert (Ht : length (take 8 (channel s)) = 8%nat)
        by (rewrite length_take; lia).
      repeat split.
      * rewrite length_app, Ht. reflexivity.
      * rewrite take_app_length' by (now rewrite Ht). exact Hlow.
      * rewrite drop_app_length' by (now rewrite Ht). repeat constructor; lia.
    + rewrite edge_pulse_unsynchronized by assumption. now repeat split.
    + destruct (Z.lt_ge_cases (currentChannel s) 8) as [H8|H8].
      * rewrite edge_pulse_counted by assumption. cbn [fst snd].
        unfold plausible. cbn [channel]. unfold assign, in_bounds.
        replace ((0 <=? currentChannel s) && (currentChannel s <? 9)) with true
          by (symmetry; apply andb_true_iff; split;
              [apply Z.leb_le | apply Z.ltb_lt]; lia).
        repeat split.
        -- now rewrite length_insert.
        -- rewrite take_insert_lt by lia. apply Forall_insert; [exact Hlow | lia].
        -- rewrite drop_insert_lt by lia. exact Hhigh.
      * rewrite edge_pulse_surplus by assumption. now repeat split.
  - cbn [step]. destruct (readyToShow s) eqn:Hr.
    + rewrite loop_report by assumption. now repeat split.
    + rewrite loop_idle by assumption. now repeat split.
Qed.

Lemma run_plausible (ins : list input) :
  Z.of_nat (length ins) <= 32768 ->
  plausible (exec (run ins) initial).
Proof.
  intros Hlen. apply (run_invariant plausible) with (k := -1).
  - intros i s Hc Hp. now apply step_plausible.
  - cbn [currentChannel initial]. lia.
  - lia.
  - unfold plausible. cbn [channel initial].
    repeat split; repeat constructor; lia.
Qed.

Lemma accumulate_total (ch : list Z) :
  length ch = 9%nat ->
  accumulate ch (seqZ 0 8) (subscript ch 8) = to_uint (sum_list ch).
Proof.
  intros Hlen.
  do 9 (destruct ch as [|? ch]; [discriminate Hlen|]).
  destruct ch; [|discriminate Hlen].
  change (accumulate _ _ _) with
    (to_uint (to_uint (to_uint (to_uint (to_uint (to_uint (to_uint (to_uint
       (z7 + z) + z0) + z1) + z2) + z3) + z4) + z5) + z6)).
  unfold to_uint, sum_list. cbn [fold_right].
  repeat (rewrite Zplus_mod_idemp_l; rewrite <- ?Z.add_assoc).
  f_equal. ring.
Qed.

Lemma plausible_sum (s : state) :
  plausible s -> 0 <= sum_list (channel s) <= 52767.
Proof.
  intros (Hlen & Hlow & Hhigh).
  destruct (channel s) as [|z0 ch]; [discriminate Hlen|].
  do 8 (destruct ch as [|? ch]; [discriminate Hlen|]).
  destruct ch; [|discriminate Hlen].
  change (take 8 [z0; z; z1; z2; z3; z4; z5; z6; z7])
    with [z0; z; z1; z2; z3; z4; z5; z6] in Hlow.
  change (drop 8 [z0; z; z1; z2; z3; z4; z5; z6; z7]) with [z7] in Hhigh.
  repeat match goal with
         | H : Forall _ (_ :: _) |- _ => inversion H; clear H; subst
         end.
  cbn beta in *. unfold sum_list. cbn [fold_right]. lia.
Qed.

(** Every step either leaves the flag alone, raises it without printing, or
    prints one line and lowers it. *)
Lemma step_balance (i : input) (s : state) :
  (lines (trace (step i) s) + Nat.b2n (readyToShow (exec (step i) s)))%nat =
  ((if negb (readyToShow s) && readyToShow (exec (step i) s) then 1 else 0)
   + Nat.b2n (readyToShow s))%nat.
Proof.
  unfold exec, trace. destruct i as [tcnt|].
  - destruct (readyToShow s) eqn:Hr.
    { rewrite edge_blocked by assumption. reflexivity. }
    destruct (Z.ltb_spec 2500 (elapsed_us tcnt)) as [He|He];
      destruct (Z.eq_dec (currentChannel s) (-1)) as [Hc1|Hc1].
    + rewrite edge_first_gap by assumption. reflexivity.
    + rewrite edge_gap by assumption. reflexivity.
    + rewrite edge_pulse_unsynchronized by assumption. reflexivity.
    + destruct (Z.lt_ge_cases (currentChannel s) 8) as [H8|H8].
      * rewrite edge_pulse_counted by assumption. reflexivity.
      * rewrite edge_pulse_surplus by assumption. reflexivity.
  - cbn [step]. destruct (readyToShow s) eqn:Hr.
    + rewrite loop_report by assumption. reflexivity.
    + rewrite loop_idle by assumption. cbn [fst snd]. rewrite Hr. reflexivity.
Qed.

Lemma run_balance (ins : list input) (s : state) :
  (lines (trace (run ins) s) + Nat.b2n (readyToShow (exec (run ins) s)))%nat =
  (assertions ins s + Nat.b2n (readyToShow s))%nat.
Proof.
  revert s. induction ins as [|i ins IH]; intros s; [reflexivity|].
  rewrite trace_run_cons, exec_run_cons, lines_app.
  unfold assertions in *. cbn [ready_history rising].
  pose proof (step_balance i s) as Hs.
  pose proof (IH (exec (step i) s)) as Hr.
  lia.
Qed.

(** ** What holds in every state the sketch reaches

    The runs considered start in the initial state and have at most 32768
    steps, which keeps [currentChannel] below the top of [int]. *)

(** The array only ever holds values the decoder can have measured: the
    eight channel slots hold values between 0 and 2500, the pause slot a
    value between 0 and 32767. *)
Theorem reachable_values_in_range (ins : list input) :
  Z.of_nat (length ins) <= 32768 ->
  length (channel (exec (run ins) initial)) = 9%nat
  /\ Forall (fun v => 0 <= v <= 2500) (take 8 (channel (exec (run ins) initial)))
  /\ Forall (fun v => 0 <= v < 32768) (drop 8 (channel (exec (run ins) initial))).
Proof.
  intros Hlen. exact (run_plausible ins Hlen).
Qed.

Lemma reachable_values_in_range_witness :
  let ins := map Edge [6000; 3000; 5000; 9000] ++ [Pass; Edge 40000; Edge 100] in
  length (channel (exec (run ins) initial)) = 9%nat
  /\ Forall (fun v => 0 <= v <= 2500) (take 8 (channel (exec (run ins) initial)))
  /\ Forall (fun v => 0 <= v < 32768) (drop 8 (channel (exec (run ins) initial))).
Proof.
  apply (reachable_values_in_range
           (map Edge [6000; 3000; 5000; 9000] ++ [Pass; Edge 40000; Edge 100])).
  vm_compute. discriminate.
Defined.

(** Every frame the decoder flags is printed exactly once: the number of
    lines on the serial link is the number of times the flag was raised,
    less one while the last frame is still waiting for its report. *)
Theorem one_line_per_frame (ins : list input) :
  Z.of_nat (length ins) <= 32768 ->
  (lines (trace (run ins) initial)
   + Nat.b2n (readyToShow (exec (run ins) initial)))%nat =
  assertions ins initial.
Proof.
  intros _. rewrite run_balance. cbn [readyToShow initial Nat.b2n]. lia.
Qed.

Lemma one_line_per_frame_witness :
  let ins := map Edge [6000; 3000; 5000; 9000] ++ [Pass; Pass; Edge 9000; Edge 9000] in
  (lines (trace (run ins) initial)
   + Nat.b2n (readyToShow (exec (run ins) initial)))%nat = 2%nat.
Proof.
  apply (one_line_per_frame
           (map Edge [6000; 3000; 5000; 9000] ++ [Pass; Pass; Edge 9000; Edge 9000])).
  vm_compute. discriminate.
Defined.

(** In such a run every subscript applied to [channel], by the interrupt
    routine or by [loop], lies inside the array. *)
Theorem bounded_run_stays_in_array (ins : list input) :
  Z.of_nat (length ins) <= 32768 ->
  Forall (fun a => 0 <= a <= 8) (accesses (trace (run ins) initial)).
Proof.
  intros Hlen.
  eapply Forall_impl; [|apply (run_accesses ins initial (-1))].
  - cbn beta. intros a Ha. unfold in_bounds in Ha.
    apply andb_true_iff in Ha as [H0 H9].
    apply Z.leb_le in H0. apply Z.ltb_lt in H9. lia.
  - cbn [currentChannel initial]. lia.
  - lia.
Qed.

Lemma bounded_run_stays_in_array_witness :
  Forall (fun a => 0 <= a <= 8)
    (accesses (trace (run (map Edge [6000; 3000; 5000; 9000] ++ [Pass])) initial)).
Proof.
  apply (bounded_run_stays_in_array (map Edge [6000; 3000; 5000; 9000] ++ [Pass])).
  vm_compute. discriminate.
Defined.

(** ** The statement-level machine *)

Lemma edge_plausible (s : state) (tcnt : Z) :
  -1 <= currentChannel s -> plausible s -> plausible (exec (step (Edge tcnt)) s).
Proof.
  intros Hc (Hlen & Hlow & Hhigh). unfold exec.
  pose proof (elapsed_us_range tcnt) as Hrange.
  destruct (readyToShow s) eqn:Hr.
  { rewrite edge_blocked by assumption. now repeat split. }
  destruct (Z.ltb_spec 2500 (elapsed_us tcnt)) as [He|He];
    destruct (Z.eq_dec (currentChannel s) (-1)) as [Hc1|Hc1].
  - rewrite edge_first_gap by assumption. now repeat split.
  - rewrite edge_gap by assumption. cbn [fst snd]. unfold plausible.
    cbn [channel]. rewrite assign_pause by assumption.
    assert (Ht : length (take 8 (channel s)) = 8%nat)
      by (rewrite length_take; lia).
    repeat split.
    + rewrite length_app, Ht. reflexivity.
    + rewrite take_app_length' by (now rewrite Ht). exact Hlow.
    + rewrite drop_app_length' by (now rewrite Ht). repeat constructor; lia.
  - rewrite edge_pulse_unsynchronized by assumption. now repeat split.
  - destruct (Z.lt_ge_cases (currentChannel s) 8) as [H8|H8].
    + rewrite edge_pulse_counted by assumption. cbn [fst snd].
      unfold plausible. cbn [channel]. unfold assign, in_bounds.
      replace ((0 <=? currentChannel s) && (currentChannel s <? 9)) with true
        by (symmetry; apply andb_true_iff; split;
            [apply Z.leb_le | apply Z.ltb_lt]; lia).
      repeat split.
      * now rewrite length_insert.
      * rewrite take_insert_lt by lia. apply Forall_insert; [exact Hlow | lia].
      * rewrite drop_insert_lt by lia. exact Hhigh.
    + rewrite edge_pulse_surplus by assumption. now repeat split.
Qed.

Lemma edge_pending_frame_closed (s : state) (tcnt : Z) :
  well_formed s -> pending_frame_closed s ->
  pending_frame_closed (exec (step (Edge tcnt)) s).
Proof.
  intros Hwf HP. unfold pending_frame_closed, exec in *.
  pose proof (elapsed_us_range tcnt) as Hrange.
  destruct (readyToShow s) eqn:Hr.
  { rewrite edge_blocked by assumption.
    cbn [fst snd readyToShow currentChannel channel]. intros _. now apply HP. }
  destruct (Z.ltb_spec 2500 (elapsed_us tcnt)) as [He|He];
    destruct (Z.eq_dec (currentChannel s) (-1)) as [Hc1|Hc1].
  - rewrite edge_first_gap by assumption. discriminate.
  - rewrite edge_gap by assumption.
    cbn [fst snd readyToShow currentChannel channel]. intros _.
    split; [now left|]. exists (elapsed_us tcnt).
    rewrite assign_pause by assumption.
    rewrite drop_app_length'
      by (rewrite length_take; unfold well_formed in Hwf; lia).
    split; [reflexivity | lia].
  - rewrite edge_pulse_unsynchronized by assumption. discriminate.
  - destruct (Z.lt_ge_cases (currentChannel s) 8) as [H8|H8].
    + rewrite edge_pulse_counted by assumption. discriminate.
    + rewrite edge_pulse_surplus by assumption. discriminate.
Qed.

(** While the flag is set an interrupt changes neither the flag nor the
    array. *)
Lemma edge_blocked_globals (s : state) (tcnt : Z) :
  readyToShow s = true ->
  readyToShow (exec (step (Edge tcnt)) s) = true
  /\ channel (exec (step (Edge tcnt)) s) = channel s.
Proof.
  intros Hr. unfold exec. rewrite edge_blocked by assumption. now split.
Qed.

Lemma irq_sound (m : machine) (n tcnt : Z) :
  sound m n -> train_after n tcnt <= 32767 ->
  sound (fst (advance (Irq tcnt) m)) (train_after n tcnt).
Proof.
  intros (Hi & Hp & Hf & Ht) Hfit. unfold sound. cbn [advance fst globals].
  fold (exec (step (Edge tcnt)) (globals m)).
  split; [now apply edge_index_fits|].
  split; [apply edge_plausible; [apply Hi | exact Hp]|].
  split; [apply edge_pending_frame_closed; [apply Hp | exact Hf]|].
  unfold total_fits in *. cbn [at_line main_total globals].
  unfold channels_sum in *.
  destruct (at_line m); try exact Ht;
    destruct Ht as (Hr & Ht);
    destruct (edge_blocked_globals (globals m) tcnt Hr) as [Hr' Hch];
    rewrite Hr', Hch; now split.
Qed.

Lemma sum_list_app (a b : list Z) : sum_list (a ++ b) = sum_list a + sum_list b.
Proof.
  induction a as [|x a IH]; [reflexivity|].
  cbn [app]. unfold sum_list in *. cbn [fold_right]. rewrite IH. lia.
Qed.

Lemma channels_sum_succ (i : nat) (s : state) :
  channels_sum (S i) s = channels_sum i s + default 0 (channel s !! i).
Proof.
  unfold channels_sum. destruct (channel s !! i) as [v|] eqn:Hv.
  - rewrite (take_S_r _ _ v) by assumption. rewrite sum_list_app.
    change (sum_list [v]) with (v + 0). change (default 0 (Some v)) with v. lia.
  - apply lookup_ge_None in Hv. rewrite !take_ge by lia.
    change (default 0 None) with 0. lia.
Qed.

Lemma plausible_channel (s : state) (i : nat) :
  plausible s -> (i < 8)%nat -> 0 <= default 0 (channel s !! i) <= 2500.
Proof.
  intros (Hlen & Hlow & _) Hi.
  destruct (channel s !! i) as [v|] eqn:Hv;
    [change (default 0 (Some v)) with v | change (default 0 None) with 0; lia].
  rewrite Forall_lookup in Hlow. apply (Hlow i v).
  rewrite lookup_take_lt by lia. exact Hv.
Qed.

Lemma plausible_pause (s : state) :
  plausible s -> 0 <= default 0 (channel s !! 8%nat) < 32768.
Proof.
  intros (Hlen & _ & Hhigh).
  destruct (channel s !! 8%nat) as [v|] eqn:Hv;
    [change (default 0 (Some v)) with v | change (default 0 None) with 0; lia].
  rewrite Forall_lookup in Hhigh. apply (Hhigh 0%nat v).
  rewrite lookup_drop. exact Hv.
Qed.

Lemma plausible_channels_sum (s : state) (i : nat) :
  plausible s -> (i <= 8)%nat -> 0 <= channels_sum i s <= 2500 * Z.of_nat i.
Proof.
  intros Hp. induction i as [|i IH]; intros Hi.
  - unfold channels_sum. rewrite take_0. cbn. lia.
  - rewrite channels_sum_succ.
    pose proof (plausible_channel s i Hp ltac:(lia)). specialize (IH ltac:(lia)). lia.
Qed.

(** What each statement of [loop] does, spelled out. *)
Lemma tick_effect (p : position) (t : Z) (s : state) :
  advance Tick (mkMachine p t s) =
  match p with
  | At_total => (mkMachine At_test (subscript (channel s) 8) s, [Fetch 8])
  | At_test =>
      (mkMachine (if readyToShow s then At_for 0 else At_total) t s, [])
  | At_for i =>
      (mkMachine (if i <? 8 then At_print_number i else At_pause_label) t s, [])
  | At_print_number i =>
      (mkMachine (At_print_colon i) t s, [Serial_print_int (to_int (i + 1))])
  | At_print_colon i =>
      (mkMachine (At_print_value i) t s, [Serial_print_str ": "])
  | At_print_value i =>
      (mkMachine (At_print_semicolon i) t s,
       [Fetch i; Serial_print_uint (subscript (channel s) i)])
  | At_print_semicolon i => (mkMachine (At_add i) t s, [Serial_print_str "; "])
  | At_add i =>
      (mkMachine (At_for (to_int (i + 1)))
                 (to_uint (t + subscript (channel s) i)) s,
       [Fetch i])
  | At_pause_label => (mkMachine At_pause_value t s, [Serial_print_str "Pause: "])
  | At_pause_value =>
      (mkMachine At_total_label t s,
       [Fetch 8; Serial_print_uint (subscript (channel s) 8)])
  | At_total_label => (mkMachine At_println t s, [Serial_print_str "; Total = "])
  | At_println => (mkMachine At_release t s, [Serial_println_uint t])
  | At_release =>
      (mkMachine At_unsync t
         (mkState (channel s) false (currentChannel s) (TCNT1 s) (pauseDuration s)),
       [])
  | At_unsync =>
      (mkMachine At_delay t
         (mkState (channel s) (readyToShow s) (-1) (TCNT1 s) (pauseDuration s)),
       [])
  | At_delay => (mkMachine At_total t s, [Delay 2000])
  end.
Proof. destruct p; reflexivity. Qed.

Lemma subscript_inside (ch : list Z) (i : Z) :
  0 <= i < 9 -> subscript ch i = default 0 (ch !! Z.to_nat i).
Proof.
  intros Hi. unfold subscript, in_bounds.
  replace ((0 <=? i) && (i <? 9)) with true; [reflexivity|].
  symmetry; apply andb_true_iff; split; [apply Z.leb_le | apply Z.ltb_lt]; lia.
Qed.

Lemma tick_sound (m : machine) (n : Z) :
  sound m n -> sound (fst (advance Tick m)) n.
Proof.
  intros ((Hn & Hc & Hlow) & Hp & Hf & Ht).
  destruct m as [p t s]. cbn [globals at_line main_total] in *.
  rewrite tick_effect.
  unfold sound, index_fits, pending_frame_closed, total_fits in *.
  cbn [at_line main_total globals] in *.
  pose proof (plausible_pause s Hp) as Hpause.
  destruct p; cbn [fst at_line main_total globals].
  - (* line 29 *)
    rewrite subscript_inside by lia. change (Z.to_nat 8) with 8%nat.
    repeat split; try tauto; try lia; apply Hp.
  - (* line 30 *)
    destruct (readyToShow s) eqn:Hr;
      (repeat split; try tauto; try lia; try apply Hp).
    all: unfold channels_sum; change (Z.to_nat 0) with 0%nat;
      rewrite take_0; change (sum_list []) with 0; lia.
  - (* line 32 *)
    destruct Ht as (Hr & Hi & Ht).
    destruct (Z.ltb_spec i 8);
      (repeat split; try tauto; try lia; try apply Hp).
    all: replace 8%nat with (Z.to_nat i) by lia; lia.
  - repeat split; try tauto; try lia; apply Hp.
  - repeat split; try tauto; try lia; apply Hp.
  - repeat split; try tauto; try lia; apply Hp.
  - repeat split; try tauto; try lia; apply Hp.
  - (* line 37 *)
    destruct Ht as (Hr & Hi & Ht).
    pose proof (plausible_channel s (Z.to_nat i) Hp ltac:(lia)) as Hv.
    pose proof (plausible_channels_sum s (Z.to_nat i) Hp ltac:(lia)) as Hs.
    rewrite subscript_inside by lia.
    rewrite to_int_small by lia. rewrite to_uint_small by lia.
    replace (Z.to_nat (i + 1)) with (S (Z.to_nat i)) by lia.
    rewrite channels_sum_succ.
    repeat split; try tauto; try lia; apply Hp.
  - repeat split; try tauto; try lia; apply Hp.
  - repeat split; try tauto; try lia; apply Hp.
  - repeat split; try tauto; try lia; apply Hp.
  - repeat split; try tauto; try lia; apply Hp.
  - (* line 43 *)
    cbn [readyToShow currentChannel channel].
    repeat split; try tauto; try lia; try apply Hp; discriminate.
  - (* line 44 *)
    cbn [readyToShow currentChannel channel].
    repeat split; try tauto; try lia; apply Hp.
  - repeat split; try tauto; try lia; apply Hp.
Qed.

Lemma schedule_cons (x : slot) (xs : list slot) (m : machine) :
  fst (schedule (x :: xs) m) = fst (schedule xs (fst (advance x m))).
Proof. reflexivity. Qed.

Lemma schedule_sound (xs : list slot) :
  forall (m : machine) (n : Z),
    sound m n -> trains_fit n (irqs xs) = true ->
    sound (fst (schedule xs m)) (pulse_train n (irqs xs)).
Proof.
  induction xs as [|x xs IH]; intros m n Hs Hfit; [exact Hs|].
  rewrite schedule_cons. destruct x as [t|].
  - change (irqs (Irq t :: xs)) with (t :: irqs xs) in *.
    cbn [trains_fit pulse_train] in *.
    apply andb_true_iff in Hfit as [H1 H2]. apply Z.leb_le in H1.
    apply IH; [apply irq_sound; assumption | exact H2].
  - change (irqs (Tick :: xs)) with (irqs xs) in *.
    apply IH; [apply tick_sound|]; assumption.
Qed.

Lemma boot_sound : sound boot 0.
Proof.
  unfold sound, index_fits, pending_frame_closed, total_fits, plausible, boot.
  cbn [globals at_line initial currentChannel readyToShow channel].
  repeat split; try lia; try discriminate; repeat constructor; lia.
Qed.

(** A pass of [loop] in which no interrupt fires is what [loop] describes:
    two statements when there is nothing to report, 58 when a frame is
    printed, with the same effect on the globals and the same trace. *)
Theorem uninterrupted_pass_is_loop (s : state) (t0 : Z) :
  exists t1 : Z,
    schedule (repeat Tick (if readyToShow s then 58 else 2)) (mkMachine At_total t0 s)
    = (mkMachine At_total t1 (exec loop s), trace loop s).
Proof.
  destruct s as [ch r c t p]. destruct r.
  - exists (accumulate ch (seqZ 0 8) (subscript ch 8)).
    unfold exec, trace. rewrite loop_report by reflexivity.
    cbn [fst snd channel TCNT1 pauseDuration readyToShow].
    change (seqZ 0 8) with [0; 1; 2; 3; 4; 5; 6; 7].
    reflexivity.
  - exists (subscript ch 8). reflexivity.
Qed.

(** Interrupts between the statements of [loop] included, [currentChannel]
    stays between -1 and the number of short intervals since the last long
    one, as long as no such train outgrows an [int]. *)
Theorem index_within_train_under_interrupts (xs : list slot) :
  trains_fit 0 (irqs xs) = true ->
  -1 <= currentChannel (globals (fst (schedule xs boot)))
     <= pulse_train 0 (irqs xs).
Proof.
  intros Hfit.
  destruct (schedule_sound xs boot 0 boot_sound Hfit) as ((_ & H & _) & _).
  exact H.
Qed.

Lemma index_within_train_under_interrupts_witness :
  let xs := [Irq 6000; Irq 3000; Tick; Irq 3000; Tick; Irq 3000] in
  -1 <= currentChannel (globals (fst (schedule xs boot))) <= pulse_train 0 (irqs xs).
Proof.
  apply (index_within_train_under_interrupts
           [Irq 6000; Irq 3000; Tick; Irq 3000; Tick; Irq 3000]).
  reflexivity.
Defined.

(** Whenever a frame is pending -- interrupts between the statements of
    [loop] included -- slot 8 holds the pause that closed it, a value above
    2500, and [currentChannel] is 0 or -1.  It is -1 when the closing edge
    fell between [readyToShow = false] and [currentChannel = -1]. *)
Theorem pending_frame_under_interrupts (xs : list slot) :
  trains_fit 0 (irqs xs) = true ->
  readyToShow (globals (fst (schedule xs boot))) = true ->
  (currentChannel (globals (fst (schedule xs boot))) = 0
   \/ currentChannel (globals (fst (schedule xs boot))) = -1)
  /\ exists v, channel (globals (fst (schedule xs boot))) !! 8%nat = Some v
               /\ 2500 < v < 32768.
Proof.
  intros Hfit Hr.
  destruct (schedule_sound xs boot 0 boot_sound Hfit) as (_ & _ & Hf & _).
  destruct (Hf Hr) as (Hc & v & Hd & Hv). split; [exact Hc|].
  exists v. split; [|exact Hv].
  rewrite <- (Nat.add_0_r 8), <- lookup_drop, Hd. reflexivity.
Qed.

Lemma pending_frame_under_interrupts_witness :
  readyToShow (globals (fst (schedule race_at_release boot))) = true
  /\ currentChannel (globals (fst (schedule race_at_release boot))) = -1
  /\ exists v, channel (globals (fst (schedule race_at_release boot))) !! 8%nat = Some v
               /\ 2500 < v < 32768.
Proof.
  destruct (pending_frame_under_interrupts race_at_release eq_refl eq_refl)
    as [_ Hv].
  repeat split; assumption.
Defined.

(** When [println] is reached, [total] is the value read from [channel[8]]
    at line 29 (a number between 0 and 32767) plus the eight channel values
    just printed, without any 16-bit wrap; it is at most 52767.  It is the
    sum of the nine values on the line unless the pause that closed the
    frame arrived between line 29 and the test of the flag. *)
Theorem total_under_interrupts (xs : list slot) :
  trains_fit 0 (irqs xs) = true ->
  at_line (fst (schedule xs boot)) = At_println ->
  readyToShow (globals (fst (schedule xs boot))) = true
  /\ 0 <= main_total (fst (schedule xs boot))
          - channels_sum 8 (globals (fst (schedule xs boot))) < 32768
  /\ 0 <= main_total (fst (schedule xs boot)) <= 52767
  /\ snd (advance Tick (fst (schedule xs boot))) =
       [Serial_println_uint (main_total (fst (schedule xs boot)))].
Proof.
  intros Hfit Hat.
  destruct (schedule_sound xs boot 0 boot_sound Hfit) as (_ & Hp & _ & Ht).
  set (m := fst (schedule xs boot)) in *.
  unfold total_fits in Ht. rewrite Hat in Ht. destruct Ht as [Hr Ht].
  pose proof (plausible_channels_sum (globals m) 8 Hp ltac:(lia)) as Hs.
  repeat split; try assumption; try lia.
  destruct m as [p t s]. cbn [at_line] in Hat. subst p.
  rewrite tick_effect. reflexivity.
Qed.

Lemma total_under_interrupts_witness :
  main_total (fst (schedule race_at_total boot)) = 12000
  /\ sum_list (channel (globals (fst (schedule race_at_total boot)))) = 15000
  /\ 0 <= main_total (fst (schedule race_at_total boot))
          - channels_sum 8 (globals (fst (schedule race_at_total boot))) < 32768
  /\ snd (advance Tick (fst (schedule race_at_total boot))) =
       [Serial_println_uint 12000].
Proof.
  destruct (total_under_interrupts race_at_total eq_refl eq_refl)
    as (_ & Hd & _ & Hp).
  repeat split; try assumption; apply Hd.
Defined.

(** A pass of [loop] entered with the flag set, in a state whose array holds
    values the decoder can have left there, prints as total the exact sum of
    the nine values on the line: the 16-bit accumulation does not wrap. *)
Theorem entered_ready_total_is_exact (s : state) :
  plausible s -> readyToShow s = true ->
  (exists calls,
      serial_calls (trace loop s) =
      calls ++ [Serial_println_uint (sum_list (channel s))])
  /\ 0 <= sum_list (channel s) <= 52767.
Proof.
  intros Hp Hr. pose proof (plausible_sum s Hp) as Hsum.
  pose proof Hp as (Hlen9 & _). split; [|exact Hsum].
  unfold trace. rewrite loop_report by assumption. cbn [snd].
  rewrite accumulate_total by assumption.
  rewrite to_uint_small by lia.
  rewrite app_comm_cons, serial_calls_app.
  exists (serial_calls (Fetch 8 :: flat_map (iteration_trace (channel s)) (seqZ 0 8))
          ++ [Serial_print_str "Pause: ";
              Serial_print_uint (subscript (channel s) 8);
              Serial_print_str "; Total = "]).
  rewrite <- app_assoc. reflexivity.
Qed.

Lemma entered_ready_total_is_exact_witness :
  let s := mkState [1500; 1400; 1300; 1200; 1100; 1000; 1900; 2000; 7000] true 0 0 7000 in
  (exists calls,
      serial_calls (trace loop s) = calls ++ [Serial_println_uint 18400])
  /\ 0 <= sum_list (channel s) <= 52767.
Proof.
  apply (entered_ready_total_is_exact
           (mkState [1500; 1400; 1300; 1200; 1100; 1000; 1900; 2000; 7000]
                    true 0 0 7000));
    [|reflexivity].
  unfold plausible. cbn [channel].
  repeat split; repeat constructor; lia.
Defined.
